(** * NodeMCU serial input framing and console writer

    A shallow embedding of [components/modules/serial_common.c] (the framing
    engine shared by the [uart] and [console] modules), of
    [retrying_write] and the Lua entry points and input task of
    [components/modules/console.c], and of the writer and the feed of
    [components/modules/uart.c], followed by the properties established
    about them.

    Conventions.
    - C integers are [Z]; every conversion the C code performs is written
      out with the wrap-around of its type (see [CInt]).
    - A [char] is the [Z] value the target's [char] type gives it; the code
      converts to [uint8_t] itself where it compares bytes.  A conversion
      to [char] is [CInt.char], for a [char] that is signed and for one
      that is not.
    - A pointer that may be [NULL] is an [option].
    - [luaL_error] does not return: it is the outcome [Raises], carrying the
      state as mutated up to the jump.
    - Behaviour the C standard leaves undefined (a store through [NULL] or
      past the end of the allocation) is the outcome [Crashes].
    - A Lua callback is an external collaborator: each call is recorded
      with its argument and with the cursor the callee finds.  [Serial]
      has the functions up to that call, which is all there is to them
      when the callee only consumes what it is given; [Callee] has them
      with the callee running, calling [on(...)] for the stream as it
      pleases.
    - The Lua stack has room for the one or two values the module pushes:
      [luaL_checkstack] returns, its "out of stack" error is outside the
      model. *)

From stdpp Require Import base option list gmap strings.
From Stdlib Require Import ssreflect ZArith Lia.

Local Open Scope Z_scope.

(** ** C integer types of the target (ILP32) *)

Module CInt.

Definition uint8_t (z : Z) : Z := z mod 2 ^ 8.
Definition uint16_t (z : Z) : Z := z mod 2 ^ 16.
Definition int16_t (z : Z) : Z := (z + 2 ^ 15) mod 2 ^ 16 - 2 ^ 15.
Definition size_t (z : Z) : Z := z mod 2 ^ 32.
Definition int (z : Z) : Z := (z + 2 ^ 31) mod 2 ^ 32 - 2 ^ 31.

(** [char] has eight bits; whether it is signed is the target's choice. *)
Definition char (signed : bool) (z : Z) : Z :=
  if signed then (z + 2 ^ 7) mod 2 ^ 8 - 2 ^ 7 else z mod 2 ^ 8.

Definition SIZE_MAX : Z := 2 ^ 32 - 1.

End CInt.

(** The [char]s of a string literal. *)
Fixpoint chars (s : string) : list Z :=
  match s with
  | EmptyString => []
  | String a s' => Z.of_nat (Ascii.nat_of_ascii a) :: chars s'
  end.

(** What a C string function reads of a [char] sequence: the part before
    the first NUL. *)
Fixpoint c_str (s : list Z) : list Z :=
  match s with
  | [] => []
  | ch :: s' => if ch =? 0 then [] else ch :: c_str s'
  end.

(** ** Outcomes of a C function *)

Inductive fault : Type :=
| NullDeref
| StoreOutsideBuffer (index allocated : Z).

Inductive outcome (A : Type) : Type :=
| Returns (a : A)
| Raises (msg : string) (a : A)
| Crashes (f : fault).

Arguments Returns {A} a.
Arguments Raises {A} msg a.
Arguments Crashes {A} f.

(** ** The Lua side, as far as the module uses it *)

Module Lua.

Definition LUA_NOREF : Z := -2.

(** A Lua function value, identified by a tag. *)
Definition lua_function : Type := nat.

(** A value on the Lua stack, classified the way the module's tests
    classify it.  [LNumber n] stands for every value on which
    [lua_isnumber] answers true (a number, or a string that converts to
    one); [n] is what [luaL_checkinteger] yields for it.  [LString s] is a
    string that does not convert to a number, as its sequence of [char]s.
    [LNil] stands for an absent argument and for every other type. *)
Inductive lua_value : Type :=
| LNil
| LNumber (n : Z)
| LString (s : list Z)
| LFunction (f : lua_function).

Definition lua_isnumber (v : lua_value) : bool :=
  match v with LNumber _ => true | _ => false end.

Definition lua_isstring (v : lua_value) : bool :=
  match v with LNumber _ | LString _ => true | _ => false end.

Definition lua_isfunction (v : lua_value) : bool :=
  match v with LFunction _ => true | _ => false end.

(** [luaL_checkinteger] and [luaL_checklstring] where the module calls
    them, that is, on a value already tested with [lua_isnumber] or
    [lua_isstring]. *)
Definition luaL_checkinteger (v : lua_value) : Z :=
  match v with LNumber n => n | _ => 0 end.

Definition luaL_checklstring (v : lua_value) : list Z :=
  match v with LString s => s | _ => [] end.

(** The value at stack index [idx] (1-based) of a call with arguments
    [args]. *)
Definition lua_arg (args : list lua_value) (idx : nat) : lua_value :=
  default LNil (args !! pred idx).

(** Modelled from the spec: the engine's registry.  Its implementation
    (lauxlib's [luaL_ref] and [luaL_unref], and the [luaL_unref2] macro) is
    not among the sources; the spec gives the capability "register a
    callback, invoke a callback by reference, unregister it".  The registry
    maps references to values. *)
Definition LUA_REFNIL : Z := -1.

(** Modelled from the spec: the reference [luaL_ref] hands out, some
    reference that is at least 1 and not in use. *)
Definition fresh_ref (reg : gmap Z lua_value) : Z :=
  1 + map_fold (fun k _ acc => Z.max k acc) 0 reg.

(** Modelled from the spec: [luaL_ref] binds the value under a new
    reference ([nil] gets the fixed reference [LUA_REFNIL]). *)
Definition luaL_ref (reg : gmap Z lua_value) (v : lua_value)
  : Z * gmap Z lua_value :=
  match v with
  | LNil => (LUA_REFNIL, reg)
  | _ => (fresh_ref reg, <[fresh_ref reg := v]> reg)
  end.

(** Modelled from the spec: [luaL_unref] drops the binding of a reference;
    [LUA_NOREF] and [LUA_REFNIL] bind nothing. *)
Definition luaL_unref (reg : gmap Z lua_value) (ref : Z)
  : gmap Z lua_value :=
  if 0 <=? ref then delete ref reg else reg.

(** Modelled from the spec: the [luaL_unref2] macro, which its call sites
    comment as "unref & clear": the reference is released and the variable
    that held it becomes [LUA_NOREF].  The result is the registry and the
    variable's new value. *)
Definition luaL_unref2 (reg : gmap Z lua_value) (ref : Z)
  : gmap Z lua_value * Z :=
  (luaL_unref reg ref, LUA_NOREF).

(** Modelled from the spec: [lua_rawgeti] on the registry reads the value
    bound to a reference. *)
Definition lua_rawgeti (reg : gmap Z lua_value) (ref : Z)
  : option lua_value :=
  reg !! ref.

(** One protected call of a registered function with a string argument.
    [seen_position] is the write cursor of the stream object at the moment
    of the call, which is what the callee finds if it looks. *)
Record invocation : Type := {
  inv_ref : Z;
  inv_fn : option lua_value;
  inv_data : list Z;
  seen_position : option Z
}.

End Lua.

Import Lua.

(** ** serial_common.c *)

Module Serial.

Import CInt.

Definition MAX_SERIAL_INPUT : Z := 255.

Record serial_input_cfg : Type := {
  receive_ref : Z;
  error_ref : Z;
  line_buffer : option (list Z);
  line_buffer_size : Z;
  line_position : Z;
  need_len : Z;
  end_char : Z
}.

Definition set_receive_ref (v : Z) (c : serial_input_cfg) :=
  {| receive_ref := v; error_ref := error_ref c;
     line_buffer := line_buffer c; line_buffer_size := line_buffer_size c;
     line_position := line_position c; need_len := need_len c;
     end_char := end_char c |}.

Definition set_error_ref (v : Z) (c : serial_input_cfg) :=
  {| receive_ref := receive_ref c; error_ref := v;
     line_buffer := line_buffer c; line_buffer_size := line_buffer_size c;
     line_position := line_position c; need_len := need_len c;
     end_char := end_char c |}.

Definition set_line_buffer (v : option (list Z)) (c : serial_input_cfg) :=
  {| receive_ref := receive_ref c; error_ref := error_ref c;
     line_buffer := v; line_buffer_size := line_buffer_size c;
     line_position := line_position c; need_len := need_len c;
     end_char := end_char c |}.

Definition set_line_buffer_size (v : Z) (c : serial_input_cfg) :=
  {| receive_ref := receive_ref c; error_ref := error_ref c;
     line_buffer := line_buffer c; line_buffer_size := v;
     line_position := line_position c; need_len := need_len c;
     end_char := end_char c |}.

Definition set_line_position (v : Z) (c : serial_input_cfg) :=
  {| receive_ref := receive_ref c; error_ref := error_ref c;
     line_buffer := line_buffer c; line_buffer_size := line_buffer_size c;
     line_position := v; need_len := need_len c;
     end_char := end_char c |}.

Definition set_need_len (v : Z) (c : serial_input_cfg) :=
  {| receive_ref := receive_ref c; error_ref := error_ref c;
     line_buffer := line_buffer c; line_buffer_size := line_buffer_size c;
     line_position := line_position c; need_len := v;
     end_char := end_char c |}.

Definition set_end_char (v : Z) (c : serial_input_cfg) :=
  {| receive_ref := receive_ref c; error_ref := error_ref c;
     line_buffer := line_buffer c; line_buffer_size := line_buffer_size c;
     line_position := line_position c; need_len := need_len c;
     end_char := v |}.

(** The state the functions act on: the Lua registry, the calls made into
    Lua so far (oldest first), and the stream object behind the module's
    [serial_input_cfg_t *] ([None] while that pointer is [NULL]). *)
Record machine : Type := {
  registry : gmap Z lua_value;
  invoked : list invocation;
  obj : option serial_input_cfg
}.

Definition set_registry (r : gmap Z lua_value) (m : machine) :=
  {| registry := r; invoked := invoked m; obj := obj m |}.

Definition set_obj (c : serial_input_cfg) (m : machine) :=
  {| registry := registry m; invoked := invoked m; obj := Some c |}.

Definition log_call (i : invocation) (m : machine) :=
  {| registry := registry m; invoked := invoked m ++ [i]; obj := obj m |}.

(** [serial_input_invoke]: nothing is called for [LUA_NOREF], a [NULL]
    buffer or a zero length; otherwise the function bound to [ref] is
    called with the first [len] bytes of [buf].  The call is recorded
    here; what the callee does while it runs is in [Callee]. *)
Definition serial_input_invoke (m : machine) (ref : Z)
    (buf : option (list Z)) (len : Z) : bool * machine :=
  match buf with
  | Some bytes =>
      if (ref =? LUA_NOREF) || (len =? 0) then (false, m)
      else
        (true,
         log_call {| inv_ref := ref;
                     inv_fn := lua_rawgeti (registry m) ref;
                     inv_data := take (Z.to_nat len) bytes;
                     seen_position := line_position <$> obj m |} m)
  | None => (false, m)
  end.

Definition serial_input_new (calloc_ok : bool) : option serial_input_cfg :=
  if calloc_ok then
    Some {| receive_ref := LUA_NOREF; error_ref := LUA_NOREF;
            line_buffer := None; line_buffer_size := 0;
            line_position := 0; need_len := 0;
            end_char := int16_t (-1) |}
  else None.

(** [serial_input_free]: both references are released, the buffer and the
    object are freed. *)
Definition serial_input_free (m : machine) : outcome machine :=
  match obj m with
  | Some c =>
      let reg1 :=
        if negb (receive_ref c =? LUA_NOREF)
        then luaL_unref (registry m) (receive_ref c)
        else registry m in
      let reg2 :=
        if negb (error_ref c =? LUA_NOREF)
        then luaL_unref reg1 (error_ref c)
        else reg1 in
      Returns {| registry := reg2; invoked := invoked m; obj := None |}
  | None => Crashes NullDeref
  end.

Definition serial_input_dispatch_data (m : machine)
    (buf : option (list Z)) (len : Z) : bool * machine :=
  match obj m with
  | None => (false, m)
  | Some c => serial_input_invoke m (receive_ref c) buf len
  end.

Definition serial_input_report_error (m : machine)
    (buf : option (list Z)) (len : Z) : bool * machine :=
  match obj m with
  | None => (false, m)
  | Some c => serial_input_invoke m (error_ref c) buf len
  end.

Definition serial_input_has_data_cb (m : machine) : bool :=
  match obj m with
  | None => false
  | Some c => negb (receive_ref c =? LUA_NOREF)
  end.

(** [cfg->line_buffer[i] = ch] on an allocation holding [bytes]. *)
Definition store (bytes : list Z) (i : Z) (ch : Z) : option (list Z) :=
  if (0 <=? i) && (i <? Z.of_nat (length bytes))
  then Some (<[Z.to_nat i := ch]> bytes)
  else None.

(** The body of the [for] loop of [serial_input_feed_data], once per
    remaining byte.  [end_char] and [max_wanted] are the locals computed
    before the loop (the local [need_len] only serves to compute
    [max_wanted]); the stream object is read afresh on every pass. *)
Fixpoint feed_loop (end_char max_wanted : Z) (rest : list Z) (m : machine)
  : outcome machine :=
  match rest with
  | [] => Returns m
  | ch :: rest' =>
      match obj m with
      | None => Crashes NullDeref
      | Some c =>
          match line_buffer c with
          | None => Crashes NullDeref
          | Some bytes =>
              match store bytes (line_position c) ch with
              | None =>
                  Crashes (StoreOutsideBuffer (line_position c)
                                              (Z.of_nat (length bytes)))
              | Some bytes' =>
                  let c1 :=
                    set_line_position (size_t (line_position c + 1))
                      (set_line_buffer (Some bytes') c) in
                  let at_end := max_wanted <=? line_position c1 in
                  let end_char_found :=
                    (0 <=? end_char)
                    && (uint8_t ch =? uint8_t end_char) in
                  if at_end || end_char_found then
                    let n := int (line_position c1) in
                    let c2 := set_line_position 0 c1 in
                    let m2 :=
                      snd (serial_input_dispatch_data (set_obj c2 m)
                             (line_buffer c2) (size_t n)) in
                    feed_loop end_char max_wanted rest' m2
                  else
                    feed_loop end_char max_wanted rest' (set_obj c1 m)
              end
          end
      end
  end.

Definition max_wanted_of (c : serial_input_cfg) : Z :=
  if (0 <=? end_char c) && (need_len c =? 0)
  then line_buffer_size c
  else need_len c.

Definition serial_input_feed_data (m : machine) (buf : option (list Z))
  : outcome machine :=
  match obj m, buf with
  | Some c, Some bytes =>
      match line_buffer c, bytes with
      | Some _, _ :: _ =>
          feed_loop (end_char c) (max_wanted_of c) bytes m
      | _, _ => Returns m
      end
  | _, _ => Returns m
  end.

(** [realloc] and [free] on the line buffer.  Whether the allocator finds
    the memory is the caller's [realloc_ok]; the bytes a grown block gains
    are indeterminate in C and are 0 here, and nothing below reads them.
    On failure the old block stays allocated and is returned to nobody. *)
Definition realloc (old : option (list Z)) (size : Z) (realloc_ok : bool)
  : option (list Z) :=
  if realloc_ok then
    Some (take (Z.to_nat size)
            (default [] old ++ replicate (Z.to_nat size) 0))
  else None.

Definition with_cfg {A : Type} (m : machine)
    (k : serial_input_cfg -> outcome A) : outcome A :=
  match obj m with
  | Some c => k c
  | None => Crashes NullDeref
  end.

(** Lines 124-148 of [serial_input_register]: the optional second
    argument selects the framing policy, and [fn_idx] is the stack index
    of the callback, or -1. *)
Definition parse_policy (m : machine) (args : list lua_value)
  : outcome (machine * Z) :=
  let parsed :=
    if lua_isnumber (lua_arg args 2) then
      with_cfg m (fun c =>
        Returns
          (set_obj
             (set_end_char (int16_t (-1))
                (set_need_len
                   (uint16_t (luaL_checkinteger (lua_arg args 2))) c)) m,
           -1))
    else if lua_isstring (lua_arg args 2) then
      let e := luaL_checklstring (lua_arg args 2) in
      if bool_decide (length e = 1%nat) then
        with_cfg m (fun c =>
          Returns
            (set_obj (set_end_char (int16_t (default 0 (head e)))
                        (set_need_len (uint16_t 0) c)) m, -1))
      else Raises "only single byte end marker supported" (m, -1)
    else if lua_isfunction (lua_arg args 2) then Returns (m, 2)
    else Returns (m, -1) in
  match parsed with
  | Returns (m', fn_idx) =>
      if (fn_idx =? -1) && lua_isfunction (lua_arg args 3)
      then Returns (m', 3)
      else Returns (m', fn_idx)
  | other => other
  end.

Definition required_size (c : serial_input_cfg) : Z :=
  let min_size :=
    if 0 <? need_len c then need_len c else MAX_SERIAL_INPUT in
  if min_size <=? line_position c
  then size_t (line_position c + 1)
  else min_size.

(** Lines 151-182: the "data" method. *)
Definition register_data (m : machine) (args : list lua_value)
    (fn_idx : Z) (realloc_ok : bool) : outcome machine :=
  with_cfg m (fun c =>
    let '(reg1, c1) :=
      if negb (receive_ref c =? LUA_NOREF)
      then
        let '(reg, ref) := luaL_unref2 (registry m) (receive_ref c) in
        (reg, set_receive_ref ref c)
      else (registry m, c) in
    if negb (fn_idx =? -1) then
      let '(ref, reg2) := luaL_ref reg1 (lua_arg args (Z.to_nat fn_idx)) in
      let c2 := set_receive_ref ref c1 in
      let min_size := required_size c2 in
      if line_buffer_size c2 <? min_size then
        let p := realloc (line_buffer c2) min_size realloc_ok in
        let c3 :=
          set_line_buffer_size
            (match p with Some _ => min_size | None => 0 end)
            (set_line_buffer p c2) in
        let m3 := set_obj c3 (set_registry reg2 m) in
        match p with
        | Some _ => Returns m3
        | None => Raises "out of mem" m3
        end
      else Returns (set_obj c2 (set_registry reg2 m))
    else
      Returns
        (set_obj
           (set_line_position 0
              (set_line_buffer_size 0 (set_line_buffer None c1)))
           (set_registry reg1 m))).

(** Lines 183-194: the "error" method. *)
Definition register_error (m : machine) (args : list lua_value)
    (fn_idx : Z) : outcome machine :=
  with_cfg m (fun c =>
    let '(reg1, c1) :=
      if negb (error_ref c =? LUA_NOREF)
      then
        let '(reg, ref) := luaL_unref2 (registry m) (error_ref c) in
        (reg, set_error_ref ref c)
      else (registry m, c) in
    if negb (fn_idx =? -1) then
      let '(ref, reg2) := luaL_ref reg1 (lua_arg args (Z.to_nat fn_idx)) in
      Returns (set_obj (set_error_ref ref c1) (set_registry reg2 m))
    else Returns (set_obj c1 (set_registry reg1 m))).

(** [serial_input_register], called as [on("method", [number/char],
    function)].  A first argument that is a number has a numeral as its
    text, which is neither method name. *)
Definition serial_input_register (m : machine) (args : list lua_value)
    (realloc_ok : bool) : outcome machine :=
  match lua_arg args 1 with
  | LString method =>
      let is_data := bool_decide (c_str method = chars "data") in
      let is_error := bool_decide (c_str method = chars "error") in
      if negb is_data && negb is_error
      then Raises "method not supported" m
      else
        match parse_policy m args with
        | Returns (m1, fn_idx) =>
            if is_data then register_data m1 args fn_idx realloc_ok
            else register_error m1 args fn_idx
        | Raises msg (m1, _) => Raises msg m1
        | Crashes f => Crashes f
        end
  | LNumber _ => Raises "method not supported" m
  | _ => Raises "bad argument #1 (string expected)" m
  end.

(** The module's clients ([uart_on], [console_on]) call
    [serial_input_register] from Lua, one call after another; a Lua error
    ends the call that raised it, not the stream.  Each call comes with
    what the allocator answers if that call asks it. *)
Fixpoint register_calls (m : machine)
    (calls : list (list lua_value * bool)) : outcome machine :=
  match calls with
  | [] => Returns m
  | (args, realloc_ok) :: calls' =>
      match serial_input_register m args realloc_ok with
      | Returns m' | Raises _ m' => register_calls m' calls'
      | Crashes f => Crashes f
      end
  end.

(** Calls of either entry point, in sequence. *)
Inductive operation : Type :=
| OnCall (args : list lua_value) (realloc_ok : bool)
| FeedCall (buf : option (list Z)).

Definition perform (m : machine) (o : operation) : outcome machine :=
  match o with
  | OnCall args realloc_ok => serial_input_register m args realloc_ok
  | FeedCall buf => serial_input_feed_data m buf
  end.

Fixpoint perform_all (m : machine) (ops : list operation)
  : outcome machine :=
  match ops with
  | [] => Returns m
  | o :: ops' =>
      match perform m o with
      | Returns m' | Raises _ m' => perform_all m' ops'
      | Crashes f => Crashes f
      end
  end.

End Serial.

(** ** serial_common.c, the callee running

    [luaL_pcallx] runs the registered Lua function to its end before
    [serial_input_invoke] returns, and that function may call the module
    from Lua: [on(...)] for the stream it is called for.  Here the
    functions that reach [serial_input_invoke] are given again with the
    callee acting; [Serial] has them up to the call.  What else the callee
    does (to other slots of the registry, to other streams) is not
    followed. *)

Module Callee.

Import CInt Serial.

(** What a Lua function does while it runs, as far as the stream object
    can tell: it returns, or it calls [on(args)] for the stream and goes
    on, one way when the call returns and another when it raises (an error
    the function does not catch ends it: [raised] is [lua_return] then).
    [realloc_ok] is what the allocator answers if that call asks it. *)
Inductive lua_code : Type :=
| lua_return
| lua_on (args : list lua_value) (realloc_ok : bool)
    (returned raised : lua_code).

(** The Lua side: what the function called does, given the calls made
    into Lua so far, the one it serves last. *)
Definition lua_program : Type := list invocation -> lua_code.

Fixpoint run_lua (code : lua_code) (m : machine) : outcome machine :=
  match code with
  | lua_return => Returns m
  | lua_on args realloc_ok returned raised =>
      match serial_input_register m args realloc_ok with
      | Returns m' => run_lua returned m'
      | Raises _ m' => run_lua raised m'
      | Crashes f => Crashes f
      end
  end.

(** [luaL_pcallx]: the function on the stack runs; a Lua error ends it and
    goes no further. *)
Definition luaL_pcallx (lua : lua_program) (m : machine)
  : outcome machine :=
  run_lua (lua (invoked m)) m.

(** [serial_input_invoke]: [Serial.serial_input_invoke] up to the call,
    then the callee. *)
Definition serial_input_invoke (lua : lua_program) (m : machine) (ref : Z)
    (buf : option (list Z)) (len : Z) : outcome (bool * machine) :=
  let called := Serial.serial_input_invoke m ref buf len in
  if called.1 then
    match luaL_pcallx lua called.2 with
    | Returns m' | Raises _ m' => Returns (true, m')
    | Crashes f => Crashes f
    end
  else Returns called.

Definition serial_input_dispatch_data (lua : lua_program) (m : machine)
    (buf : option (list Z)) (len : Z) : outcome (bool * machine) :=
  match obj m with
  | None => Returns (false, m)
  | Some c => serial_input_invoke lua m (receive_ref c) buf len
  end.

Definition serial_input_report_error (lua : lua_program) (m : machine)
    (buf : option (list Z)) (len : Z) : outcome (bool * machine) :=
  match obj m with
  | None => Returns (false, m)
  | Some c => serial_input_invoke lua m (error_ref c) buf len
  end.

(** The body of the [for] loop of [serial_input_feed_data], once per
    remaining byte.  [end_char] and [max_wanted] are the locals computed
    before the loop; the stream object is read afresh on every pass, so
    the loop goes on with whatever the callee left. *)
Fixpoint feed_loop (lua : lua_program) (end_char max_wanted : Z)
    (rest : list Z) (m : machine) : outcome machine :=
  match rest with
  | [] => Returns m
  | ch :: rest' =>
      match obj m with
      | None => Crashes NullDeref
      | Some c =>
          match line_buffer c with
          | None => Crashes NullDeref
          | Some bytes =>
              match store bytes (line_position c) ch with
              | None =>
                  Crashes (StoreOutsideBuffer (line_position c)
                                              (Z.of_nat (length bytes)))
              | Some bytes' =>
                  let c1 :=
                    set_line_position (size_t (line_position c + 1))
                      (set_line_buffer (Some bytes') c) in
                  let at_end := max_wanted <=? line_position c1 in
                  let end_char_found :=
                    (0 <=? end_char)
                    && (uint8_t ch =? uint8_t end_char) in
                  if at_end || end_char_found then
                    let n := int (line_position c1) in
                    let c2 := set_line_position 0 c1 in
                    match serial_input_dispatch_data lua (set_obj c2 m)
                            (line_buffer c2) (size_t n) with
                    | Returns (_, m2) | Raises _ (_, m2) =>
                        feed_loop lua end_char max_wanted rest' m2
                    | Crashes f => Crashes f
                    end
                  else
                    feed_loop lua end_char max_wanted rest' (set_obj c1 m)
              end
          end
      end
  end.

Definition serial_input_feed_data (lua : lua_program) (m : machine)
    (buf : option (list Z)) : outcome machine :=
  match obj m, buf with
  | Some c, Some bytes =>
      match line_buffer c, bytes with
      | Some _, _ :: _ =>
          feed_loop lua (end_char c) (max_wanted_of c) bytes m
      | _, _ => Returns m
      end
  | _, _ => Returns m
  end.

(** Calls of either entry point, in sequence. *)
Definition perform (lua : lua_program) (m : machine) (o : operation)
  : outcome machine :=
  match o with
  | OnCall args realloc_ok => serial_input_register m args realloc_ok
  | FeedCall buf => serial_input_feed_data lua m buf
  end.

Fixpoint perform_all (lua : lua_program) (m : machine)
    (ops : list operation) : outcome machine :=
  match ops with
  | [] => Returns m
  | o :: ops' =>
      match perform lua m o with
      | Returns m' | Raises _ m' => perform_all lua m' ops'
      | Crashes f => Crashes f
      end
  end.

End Callee.

(** ** console.c: [retrying_write] *)

Module Console.

Import CInt.

Definition MAX_LEN : Z := 255.

(** What one pass of the loop learns from stdio: the value [fwrite]
    returns, and what [ferror(stdout)] answers after it. *)
Record stdout_reply : Type := {
  fwrite_returns : Z;
  ferror_after : bool
}.

(** The output device, as the loop meets it: the answer to each [fwrite]
    in turn, as a function of the number of bytes offered.  The loop has
    no bound of its own, so a run ends when the payload is written, when
    an error stops it, or when the device's answers are used up. *)
Definition device : Type := list (Z -> stdout_reply).

(** The calls the loop makes to stdio and to the scheduler, in order. *)
Inductive stdio_call : Type :=
| call_fwrite (bytes : list Z)
| call_fflush
| call_fsync
| call_ferror
| call_vTaskDelay (ticks : Z).

Inductive write_result : Type :=
| Written (count : Z)
| Unanswered (written : Z).

(** [fwrite(buf + written, 1, to_write, stdout); fflush(stdout);
    fsync(fileno(stdout))]. *)
Definition attempt (buf : list Z) (written to_write : Z) : list stdio_call :=
  [call_fwrite (take (Z.to_nat to_write) (drop (Z.to_nat written) buf));
   call_fflush; call_fsync].

Definition to_write_at (len written : Z) : Z :=
  let left := size_t (len - written) in
  if MAX_LEN <? left then MAX_LEN else left.

Definition and_then (calls : list stdio_call)
    (rest : write_result * list stdio_call) : write_result * list stdio_call :=
  (rest.1, calls ++ rest.2).

(** The [while] loop, from the state [written]. *)
Fixpoint retrying_write_loop (dev : device) (buf : list Z)
    (len written : Z) : write_result * list stdio_call :=
  if written <? len then
    match dev with
    | [] => (Unanswered written, [])
    | reply :: dev' =>
        let to_write := to_write_at len written in
        let n := fwrite_returns (reply to_write) in
        if 0 <? n then
          and_then (attempt buf written to_write)
            (retrying_write_loop dev' buf len (size_t (written + n)))
        else if ferror_after (reply to_write) then
          (Written written, attempt buf written to_write ++ [call_ferror])
        else
          and_then
            (attempt buf written to_write
             ++ [call_ferror; call_vTaskDelay 1])
            (retrying_write_loop dev' buf len written)
    end
  else (Written written, []).

(** [retrying_write(buf, len)], [buf] holding the [len] bytes; the count
    is returned as an [int]. *)
Definition retrying_write (dev : device) (buf : list Z)
  : write_result * list stdio_call :=
  let run := retrying_write_loop dev buf (Z.of_nat (length buf)) 0 in
  (match run.1 with
   | Written count => Written (int count)
   | Unanswered written => Unanswered written
   end, run.2).

(** Answers a device may give: taking all it is offered; returning [n]
    with the error indicator as [err]; taking [n] bytes; taking nothing for
    now; having failed. *)
Definition takes_all : Z -> stdout_reply :=
  fun offered => {| fwrite_returns := offered; ferror_after := false |}.

Definition answers (n : Z) (err : bool) : Z -> stdout_reply :=
  fun _ => {| fwrite_returns := n; ferror_after := err |}.

Definition takes (n : Z) : Z -> stdout_reply := answers n false.

Definition busy : Z -> stdout_reply := answers 0 false.

Definition failed : Z -> stdout_reply := answers 0 true.

End Console.

(** ** Framing, as the specification words it

    "For each byte: append at position, increment position.  A frame is
    complete when either position reaches the effective capacity bound, or
    the just-appended byte equals end_char."  [split_frames] is that
    sentence on plain lists: [pending] is the partial frame, the result
    holds the completed frames in order and the partial frame left over. *)

Module Framing.

Import CInt.

Definition completes (end_char max_wanted : Z) (frame : list Z) (ch : Z)
  : bool :=
  (max_wanted <=? Z.of_nat (length frame))
  || ((0 <=? end_char) && (uint8_t ch =? uint8_t end_char)).

Fixpoint split_frames (end_char max_wanted : Z) (pending input : list Z)
  : list (list Z) * list Z :=
  match input with
  | [] => ([], pending)
  | ch :: input' =>
      let frame := pending ++ [ch] in
      if completes end_char max_wanted frame ch then
        let '(frames, rest) := split_frames end_char max_wanted [] input' in
        (frame :: frames, rest)
      else split_frames end_char max_wanted frame input'
  end.


End Framing.

(** ** Vocabulary of the statements *)

Module SerialTerms.

Import CInt Serial Framing.

(** The call [serial_input_feed_data] makes for a completed frame: the
    data callback of [c], with the frame, the cursor already back at 0. *)
Definition frame_call (m : machine) (c : serial_input_cfg)
    (frame : list Z) : invocation :=
  {| inv_ref := receive_ref c;
     inv_fn := lua_rawgeti (registry m) (receive_ref c);
     inv_data := frame;
     seen_position := Some 0 |}.

(** What lines 126-139 leave in [need_len] and [end_char] when they raise
    no error. *)
Definition policy_of (a2 : lua_value) (c : serial_input_cfg)
  : serial_input_cfg :=
  match a2 with
  | LNumber n => set_end_char (int16_t (-1)) (set_need_len (uint16_t n) c)
  | LString e =>
      set_end_char (int16_t (default 0 (head e)))
        (set_need_len (uint16_t 0) c)
  | _ => c
  end.

(** The [fn_idx] of lines 140-148. *)
Definition fn_index (args : list lua_value) : Z :=
  if lua_isfunction (lua_arg args 2) then 2
  else if lua_isfunction (lua_arg args 3) then 3
  else -1.

(** The second argument does not trip the length check of line 135. *)
Definition single_byte_marker (a2 : lua_value) : Prop :=
  forall e, a2 = LString e -> length e = 1%nat.

(** The registry once the previous data callback, if any, is released
    (lines 153-154). *)
Definition released (m : machine) (c : serial_input_cfg)
  : gmap Z lua_value :=
  if receive_ref c =? LUA_NOREF then registry m
  else luaL_unref (registry m) (receive_ref c).

(** The call came back, by return or by a Lua error, leaving [m']. *)
Definition ends_in (o : outcome machine) (m' : machine) : Prop :=
  o = Returns m' \/ exists msg, o = Raises msg m'.

(** On a stream that has not been fed the cursor is 0; and a stream
    without data callback has no buffer. *)
Definition callback_has_buffer (c : serial_input_cfg) : Prop :=
  line_position c = 0
  /\ (receive_ref c = LUA_NOREF -> line_buffer c = None).

(** A stream without buffer has no data callback, and records size 0. *)
Definition buffer_has_callback (c : serial_input_cfg) : Prop :=
  line_buffer c = None ->
  receive_ref c = LUA_NOREF /\ line_buffer_size c = 0.

(** The stream is consistent: without buffer it records size 0, cursor 0
    and no data callback; with a buffer, the recorded size is the
    allocation's, the cursor is inside it, the frame bound fits in it, and
    a data callback is registered. *)
Definition consistent (c : serial_input_cfg) : Prop :=
  0 <= need_len c < 2 ^ 16
  /\ match line_buffer c with
     | Some bytes =>
         line_buffer_size c = Z.of_nat (length bytes)
         /\ 0 <= line_position c < line_buffer_size c
         /\ max_wanted_of c <= line_buffer_size c
         /\ line_buffer_size c <= SIZE_MAX
         /\ receive_ref c <> LUA_NOREF
     | None =>
         line_buffer_size c = 0
         /\ line_position c = 0
         /\ receive_ref c = LUA_NOREF
     end.

(** Calls that stay clear of the two paths on which the cursor escapes:
    the allocator does not fail, and an "error" registration carries no
    number or end character. *)
Definition plain (o : operation) : Prop :=
  match o with
  | FeedCall _ => True
  | OnCall args realloc_ok =>
      realloc_ok = true
      /\ forall method,
           lua_arg args 1 = LString method ->
           c_str method = chars "error" ->
           lua_isstring (lua_arg args 2) = false
  end.

End SerialTerms.

(** ** The streams the scenarios run on *)

Module Scenarios.

Import CInt Serial.


Definition stream_after (o : outcome machine) : option serial_input_cfg :=
  match o with
  | Returns m | Raises _ m => obj m
  | Crashes _ => None
  end.

Definition machine_after (o : outcome machine) (otherwise : machine)
  : machine :=
  match o with
  | Returns m | Raises _ m => m
  | Crashes _ => otherwise
  end.

(** A machine on which [serial_input_new] has just succeeded. *)
Definition fresh_machine : machine :=
  {| registry := ∅; invoked := []; obj := serial_input_new true |}.

(** [on("data", 4, f)] on a fresh stream. *)
Definition fixed4_machine : machine :=
  machine_after
    (serial_input_register fresh_machine
       [LString (chars "data"); LNumber 4; LFunction 7%nat] true)
    fresh_machine.

(** [on("data", "\n", f)] on a fresh stream. *)
Definition newline_machine : machine :=
  machine_after
    (serial_input_register fresh_machine
       [LString (chars "data"); LString [10]; LFunction 7%nat] true)
    fresh_machine.



(** A fixed-length stream of 4 with "ab" buffered. *)
Definition fixed4_ab_machine : machine :=
  machine_after
    (serial_input_feed_data fixed4_machine (Some (chars "ab")))
    fresh_machine.

(** A stream whose policy is the end character "\n", with "cd" buffered
    after the frame "ab\n" went out. *)
Definition newline_cd_machine : machine :=
  machine_after
    (serial_input_feed_data newline_machine (Some [97; 98; 10; 99; 100]))
    fresh_machine.

Definition newline_cd_cfg : serial_input_cfg :=
  {| receive_ref := 1; error_ref := LUA_NOREF;
     line_buffer := Some ([99; 100; 10] ++ replicate 252 0);
     line_buffer_size := 255; line_position := 2;
     need_len := 0; end_char := 10 |}.

End Scenarios.

Module ConsoleTerms.

Import CInt Console.

(** Every [fwrite] carries at most [MAX_LEN] bytes and is followed at once
    by [fflush] and [fsync]. *)
Definition chunked_and_flushed (calls : list stdio_call) : Prop :=
  forall (i : nat) (bytes : list Z),
    calls !! i = Some (call_fwrite bytes) ->
    Z.of_nat (length bytes) <= MAX_LEN
    /\ calls !! S i = Some call_fflush
    /\ calls !! S (S i) = Some call_fsync.

(** The payloads of the [fwrite] calls, in order. *)
Fixpoint fwrites (calls : list stdio_call) : list (list Z) :=
  match calls with
  | [] => []
  | call_fwrite bytes :: calls' => bytes :: fwrites calls'
  | _ :: calls' => fwrites calls'
  end.

End ConsoleTerms.

(** ** Vocabulary of the further properties *)

Module RegistrationTerms.

Import CInt Serial SerialTerms.

(** The second argument passes the length check of line 135. *)
Definition marker_accepted (a2 : lua_value) : bool :=
  match a2 with
  | LString e => bool_decide (length e = 1%nat)
  | _ => true
  end.

(** What the call [on(args)] asks of the callback named [target]: [None]
    when the call names another method or is refused for its arguments;
    otherwise the function to register, or [Some None] to unregister. *)
Definition asks (target : string) (args : list lua_value)
  : option (option lua_value) :=
  match lua_arg args 1 with
  | LString method =>
      if bool_decide (c_str method = chars target)
         && marker_accepted (lua_arg args 2)
      then
        Some (if fn_index args =? -1 then None
              else Some (lua_arg args (Z.to_nat (fn_index args))))
      else None
  | _ => None
  end.

(** The callback named [target] after a sequence of calls: what the last
    call that asked for it asked. *)
Definition callback_after (target : string)
    (calls : list (list lua_value * bool)) : option lua_value :=
  foldl (fun cur call => default cur (asks target call.1)) None calls.

(** The value a reference of the stream stands for. *)
Definition bound (m : machine) (ref : Z) : option lua_value :=
  if ref =? LUA_NOREF then None else lua_rawgeti (registry m) ref.

(** The registry once the reference [ref], if set, is released. *)
Definition unref_if_set (R : gmap Z lua_value) (ref : Z)
  : gmap Z lua_value :=
  if ref =? LUA_NOREF then R else luaL_unref R ref.

(** The reference [ref] is unset, or stands in [R] for the value [v] under
    a key the registry [reg] does not use. *)
Definition held (reg R : gmap Z lua_value) (ref : Z)
    (v : option lua_value) : Prop :=
  match v with
  | None => ref = LUA_NOREF
  | Some f => 1 <= ref /\ reg !! ref = None /\ R !! ref = Some f
  end.

(** The registry [R] is [reg] and what the two references hold. *)
Definition tracked (reg R : gmap Z lua_value) (r : Z)
    (dv : option lua_value) (e : Z) (ev : option lua_value) : Prop :=
  held reg R r dv
  /\ held reg R e ev
  /\ (is_Some dv -> is_Some ev -> r <> e)
  /\ forall k : Z,
       (is_Some dv -> k <> r) -> (is_Some ev -> k <> e) ->
       R !! k = reg !! k.

End RegistrationTerms.

Module CalleeTerms.

Import CInt Serial SerialTerms RegistrationTerms Callee.

(** The functions called leave the stream and the registry alone: they
    make no call into the module. *)
Definition quiet (lua : lua_program) : Prop :=
  forall log : list invocation, lua log = lua_return.




(** Lua functions of the scenarios: one that only consumes its argument;
    one that unregisters the data callback; one that registers [g] for
    frames of [n] bytes in its place. *)
Definition consumes : lua_program := fun _ => lua_return.

Definition unregisters : lua_program :=
  fun _ => lua_on [LString (chars "data")] true lua_return lua_return.


End CalleeTerms.

Module FeedTerms.

Import CInt Serial SerialTerms.

(** Two states of a stream object that differ at most in the bytes of the
    line buffer and in the cursor. *)
Definition same_setup (c c' : serial_input_cfg) : Prop :=
  receive_ref c' = receive_ref c
  /\ error_ref c' = error_ref c
  /\ need_len c' = need_len c
  /\ end_char c' = end_char c
  /\ line_buffer_size c' = line_buffer_size c
  /\ length <$> line_buffer c' = length <$> line_buffer c.

(** The feed of each piece in turn. *)
Definition feeds (pieces : list (list Z)) : list operation :=
  (fun piece => FeedCall (Some piece)) <$> pieces.

End FeedTerms.

(** ** console.c: the Lua entry points and the input task *)

Module ConsoleModule.

Import CInt Serial Console.

(** The answers of the device that a run of the loop of [retrying_write]
    leaves for the next run: the loop again, followed for the answers it
    reads instead of the calls it makes. *)
Fixpoint answers_left (dev : device) (len written : Z) : device :=
  if written <? len then
    match dev with
    | [] => []
    | reply :: dev' =>
        let to_write := to_write_at len written in
        let n := fwrite_returns (reply to_write) in
        if 0 <? n then answers_left dev' len (size_t (written + n))
        else if ferror_after (reply to_write) then dev'
        else answers_left dev' len written
    end
  else dev.

(** An argument of [console.write] or [uart.write], by the tests they
    make: a value of type string, with its bytes; a value of type number,
    with what [lua_tointeger] yields for it; any other value. *)
Inductive write_arg : Type :=
| WString (s : list Z)
| WNumber (n : Z)
| WOther.

(** How a call from Lua ends: it returns, it raises a Lua error, or it is
    still in the loop of [retrying_write] when the device's answers are
    used up. *)
Inductive call_end : Type :=
| CallReturns
| CallRaises (msg : string)
| CallUnanswered.

(** [retrying_write(buf, len);] followed by the rest of the call; the
    value [retrying_write] returns is not looked at. *)
Definition write_then (dev : device) (buf : list Z)
    (rest : device -> call_end * list stdio_call)
  : call_end * list stdio_call :=
  let run := retrying_write dev buf in
  match run.1 with
  | Written _ =>
      let after := rest (answers_left dev (Z.of_nat (length buf)) 0) in
      (after.1, run.2 ++ after.2)
  | Unanswered _ => (CallUnanswered, run.2)
  end.

(** [console_write]: the [for] loop over the arguments.  A number is
    converted to [int]; the [char] it is stored in holds it as that
    byte. *)
Fixpoint console_write (dev : device) (args : list write_arg)
  : call_end * list stdio_call :=
  match args with
  | [] => (CallReturns, [])
  | WString buf :: args' =>
      write_then dev buf (fun dev' => console_write dev' args')
  | WNumber v :: args' =>
      let n := int v in
      if (n <? 0) || (255 <? n) then (CallRaises "invalid number", [])
      else write_then dev [n] (fun dev' => console_write dev' args')
  | WOther :: args' => console_write dev args'
  end.

(** The console module's state: the [run_input] switch, the Lua state
    with the stream behind [cb_cfg], the bytes handed to
    [feed_lua_input], and the calls made on [stdout]. *)
Record console : Type := {
  run_input : bool;
  cb_cfg : machine;
  lua_input : list Z;
  stdout_calls : list stdio_call
}.

(** [console_feed_lua], the task run posted for one byte read from the
    console; [param] carries that byte, and the task hands on
    [(char)param], [char_signed] saying whether the target's [char] is
    signed.  [lua] is the data callback's code as [Callee] has it: the
    calls it makes are calls of [console.on].  Code that calls
    [console.mode] or [console.write] while the task runs (the callback,
    or what [feed_lua_input] does with the byte) is not represented. *)
Definition console_feed_lua (char_signed : bool)
    (lua : Callee.lua_program) (k : console) (param : Z)
  : outcome console :=
  let c := char char_signed param in
  let input := if run_input k then lua_input k ++ [c] else lua_input k in
  let fed :=
    if serial_input_has_data_cb (cb_cfg k)
    then Callee.serial_input_feed_data lua (cb_cfg k) (Some [c])
    else Returns (cb_cfg k) in
  match fed with
  | Returns m | Raises _ m =>
      Returns {| run_input := run_input k; cb_cfg := m;
                 lua_input := input;
                 stdout_calls :=
                   stdout_calls k ++ [call_fflush; call_fsync] |}
  | Crashes f => Crashes f
  end.

(** The task runs for the parameters posted, in the order posted. *)
Fixpoint console_feed_all (char_signed : bool) (lua : Callee.lua_program)
    (k : console) (posted : list Z) : outcome console :=
  match posted with
  | [] => Returns k
  | param :: posted' =>
      match console_feed_lua char_signed lua k param with
      | Returns k' | Raises _ k' =>
          console_feed_all char_signed lua k' posted'
      | Crashes f => Crashes f
      end
  end.

Definition NONINTERACTIVE : Z := 0.
Definition INTERACTIVE : Z := 1.

(** [console_mode], [mode] being what [luaL_checkint] yields. *)
Definition console_mode (k : console) (mode : Z) : outcome console :=
  let switch (on : bool) :=
    Returns {| run_input := on; cb_cfg := cb_cfg k;
               lua_input := lua_input k;
               stdout_calls := stdout_calls k |} in
  if mode =? NONINTERACTIVE then switch false
  else if mode =? INTERACTIVE then switch true
  else Raises "invalid mode" k.

End ConsoleModule.

Module ConsoleModuleTerms.

Import CInt Serial Console ConsoleTerms ConsoleModule.

(** The device keeps to [fwrite]'s contract: it reports at most as many
    bytes as it was offered. *)
Definition obedient (dev : device) : Prop :=
  Forall (fun reply : Z -> stdout_reply =>
            forall offered : Z,
              0 <= offered -> 0 <= fwrite_returns (reply offered) <= offered)
    dev.

(** The bytes the device took: of the bytes of each [fwrite], as many as
    its answer to that call says. *)
Fixpoint taken (dev : device) (chunks : list (list Z)) : list Z :=
  match dev, chunks with
  | reply :: dev', chunk :: chunks' =>
      take (Z.to_nat (fwrite_returns (reply (Z.of_nat (length chunk)))))
        chunk
      ++ taken dev' chunks'
  | _, _ => []
  end.

(** The bytes an argument of [console.write] stands for. *)
Definition bytes_of (a : write_arg) : list Z :=
  match a with
  | WString s => s
  | WNumber v => [int v]
  | WOther => []
  end.

Definition payload (args : list write_arg) : list Z :=
  concat (bytes_of <$> args).

(** The argument passes the checks of [console_write]: a number is within
    0..255 once it is an [int]; a string's length is a [size_t]. *)
Definition writable (a : write_arg) : Prop :=
  match a with
  | WString s => Z.of_nat (length s) <= SIZE_MAX
  | WNumber v => 0 <= int v <= 255
  | WOther => True
  end.

(** What a run of task runs leaves in the console: the stream as [m'],
    the bytes [bytes] handed on if the switch is on, and a flush and a
    sync per byte. *)
Definition relayed (k : console) (m' : machine) (bytes : list Z)
  : console :=
  {| run_input := run_input k; cb_cfg := m';
     lua_input := lua_input k ++ (if run_input k then bytes else []);
     stdout_calls :=
       stdout_calls k
       ++ concat ((fun _ => [call_fflush; call_fsync]) <$> bytes) |}.

End ConsoleModuleTerms.

(** ** uart.c: [uart_write], [uart_feed_data], [luaopen_uart] *)

Module Uart.

Import CInt Serial ConsoleModule.

(** The calls made to the platform's uart driver. *)
Inductive platform_call : Type :=
| platform_uart_send (id : Z) (data : Z)
| platform_uart_send_multi (id : Z) (buf : list Z)
| platform_uart_flush (id : Z).

(** Lines 138-155 of [uart_write]: the loop over the arguments after the
    id, and the flush that follows it.  [sent] are the calls made so far;
    a number is read into a [size_t]. *)
Fixpoint uart_write_from (id : Z) (args : list write_arg)
    (sent : list platform_call) : outcome (list platform_call) :=
  match args with
  | [] => Returns (sent ++ [platform_uart_flush id])
  | WNumber v :: args' =>
      let len := size_t v in
      if 255 <? len then Raises "invalid number" sent
      else
        uart_write_from id args'
          (sent ++ [platform_uart_send id (uint8_t len)])
  | WString buf :: args' =>
      uart_write_from id args' (sent ++ [platform_uart_send_multi id buf])
  | WOther :: _ => Raises "bad argument (string expected)" sent
  end.

(** The module's state: the Lua state, and the array [uart_cb_cfg] of
    stream objects, one per uart ([NUM_UART] is the array's length). *)
Record uart_module : Type := {
  lua_registry : gmap Z lua_value;
  lua_invoked : list invocation;
  uart_cb_cfg : list (option serial_input_cfg)
}.

Definition NUM_UART (u : uart_module) : Z :=
  Z.of_nat (length (uart_cb_cfg u)).

(** The Lua state together with [uart_cb_cfg[id]], as the functions of
    [serial_common.c] see them, and the state once such a function is
    done. *)
Definition uart_stream (u : uart_module) (id : nat) : machine :=
  {| registry := lua_registry u; invoked := lua_invoked u;
     obj := uart_cb_cfg u !! id ≫= (fun cfg => cfg) |}.

Definition uart_stream_done (u : uart_module) (id : nat) (m : machine)
  : uart_module :=
  {| lua_registry := registry m; lua_invoked := invoked m;
     uart_cb_cfg := <[id := obj m]> (uart_cb_cfg u) |}.

(** [uart_feed_data]; [id] is an [unsigned]. *)
Definition uart_feed_data (u : uart_module) (id : nat)
    (buf : option (list Z)) : outcome uart_module :=
  if NUM_UART u <=? Z.of_nat id then Returns u
  else
    match serial_input_feed_data (uart_stream u id) buf with
    | Returns m => Returns (uart_stream_done u id m)
    | Raises msg m => Raises msg (uart_stream_done u id m)
    | Crashes f => Crashes f
    end.

(** [luaopen_uart]: the loop from [id] on.  [callocs] are the allocator's
    answers to the calls of [serial_input_new] still to come, one per
    remaining uart. *)
Fixpoint luaopen_uart_from (u : uart_module) (id : nat)
    (callocs : list bool) : outcome uart_module :=
  match callocs with
  | [] => Returns u
  | calloc_ok :: callocs' =>
      let u' :=
        {| lua_registry := lua_registry u; lua_invoked := lua_invoked u;
           uart_cb_cfg :=
             <[id := serial_input_new calloc_ok]> (uart_cb_cfg u) |} in
      match serial_input_new calloc_ok with
      | None => Raises "out of mem" u'
      | Some _ => luaopen_uart_from u' (S id) callocs'
      end
  end.

(** [luaopen_uart] on the array as the program starts with it, all
    [NULL]. *)
Definition luaopen_uart (reg : gmap Z lua_value) (callocs : list bool)
  : outcome uart_module :=
  luaopen_uart_from
    {| lua_registry := reg; lua_invoked := [];
       uart_cb_cfg := replicate (length callocs) None |}
    0 callocs.

End Uart.

(** [uart_feed_data] with the callee running.  [lua] is the data
    callback's code as [Callee] has it: the calls it makes are calls of
    [uart.on] for the uart that is fed. *)
Module UartCallee.

Import CInt Serial Uart.

Definition uart_feed_data (lua : Callee.lua_program) (u : uart_module)
    (id : nat) (buf : option (list Z)) : outcome uart_module :=
  if NUM_UART u <=? Z.of_nat id then Returns u
  else
    match Callee.serial_input_feed_data lua (uart_stream u id) buf with
    | Returns m => Returns (uart_stream_done u id m)
    | Raises msg m => Raises msg (uart_stream_done u id m)
    | Crashes f => Crashes f
    end.

End UartCallee.

Module UartTerms.

Import CInt Serial ConsoleModule Uart.

(** The bytes a call to the driver puts on the line. *)
Definition on_line (call : platform_call) : list Z :=
  match call with
  | platform_uart_send _ data => [data]
  | platform_uart_send_multi _ buf => buf
  | platform_uart_flush _ => []
  end.

(** The argument passes the checks of [uart_write]. *)
Definition sendable (a : write_arg) : Prop :=
  match a with
  | WString _ => True
  | WNumber v => size_t v <= 255
  | WOther => False
  end.

(** The call the loop of [uart_write] makes for an argument. *)
Definition send_of (id : Z) (a : write_arg) : list platform_call :=
  match a with
  | WString buf => [platform_uart_send_multi id buf]
  | WNumber v => [platform_uart_send id (uint8_t (size_t v))]
  | WOther => []
  end.

(** The bytes an argument of [uart.write] stands for. *)
Definition line_bytes (a : write_arg) : list Z :=
  match a with
  | WString buf => buf
  | WNumber v => [size_t v]
  | WOther => []
  end.

(** Two uarts: the first as [luaopen_uart] leaves it, the second after
    [on("data", 4, f)]. *)
Definition two_uarts : uart_module :=
  {| lua_registry := registry Scenarios.fixed4_machine;
     lua_invoked := [];
     uart_cb_cfg := [serial_input_new true;
                     obj Scenarios.fixed4_machine] |}.

End UartTerms.

(** ** Facts about the embedding *)

Module CIntFacts.

Import CInt.

Lemma size_t_small z : 0 <= z <= SIZE_MAX -> size_t z = z.
Proof. unfold size_t, SIZE_MAX. intros H. apply Z.mod_small. lia. Qed.

(** [int n = cfg->line_position] followed by passing [n] as a [size_t]
    gives the cursor back. *)
Lemma size_t_int z : size_t (int z) = size_t z.
Proof.
  unfold size_t, int.
  rw Zminus_mod_idemp_l. f_equal. lia.
Qed.

End CIntFacts.

Module FramingFacts.

Import CInt Framing.





End FramingFacts.

Module SerialFacts.

Import CInt CIntFacts Serial Framing FramingFacts SerialTerms.

Lemma store_in_bounds (bytes : list Z) (i ch : Z) :
  0 <= i < Z.of_nat (length bytes) ->
  store bytes i ch = Some (<[Z.to_nat i := ch]> bytes).
Proof.
  intros H. unfold store.
  replace (0 <=? i) with true by lia.
  by replace (i <? Z.of_nat (length bytes)) with true by lia.
Qed.

Lemma take_store (bytes : list Z) (i : nat) (ch : Z) :
  (i < length bytes)%nat ->
  take (S i) (<[i := ch]> bytes) = take i bytes ++ [ch].
Proof.
  intros H.
  rw (take_S_r (<[i:=ch]> bytes) i ch).
  - by apply list_lookup_insert_eq.
  - by rw take_insert_ge.
Qed.

(** The loop of [serial_input_feed_data] refines [split_frames]: started
    with the cursor inside the allocation and a bound the allocation can
    hold, it returns, having called the data callback once per completed
    frame, in order, and leaves the partial frame at the front of the
    buffer with the cursor after it. *)
Lemma feed_loop_frames e mw input : forall m c bytes,
  obj m = Some c ->
  line_buffer c = Some bytes ->
  receive_ref c <> LUA_NOREF ->
  0 <= line_position c < Z.of_nat (length bytes) ->
  mw <= Z.of_nat (length bytes) ->
  Z.of_nat (length bytes) <= SIZE_MAX ->
  exists bytes',
    feed_loop e mw input m =
      Returns
        {| registry := registry m;
           invoked :=
             invoked m ++
             (frame_call m c <$>
                (split_frames e mw
                   (take (Z.to_nat (line_position c)) bytes) input).1);
           obj :=
             Some
               (set_line_position
                  (Z.of_nat
                     (length
                        (split_frames e mw
                           (take (Z.to_nat (line_position c)) bytes)
                           input).2))
                  (set_line_buffer (Some bytes') c)) |}
    /\ length bytes' = length bytes
    /\ take
         (length
            (split_frames e mw
               (take (Z.to_nat (line_position c)) bytes) input).2)
         bytes'
       = (split_frames e mw
            (take (Z.to_nat (line_position c)) bytes) input).2
    /\ Z.of_nat
         (length
            (split_frames e mw
               (take (Z.to_nat (line_position c)) bytes) input).2)
       < Z.of_nat (length bytes).
Proof.
  induction input as [|ch input IH];
    intros m c bytes Hobj Hbuf Href Hpos Hmw Hmax.
  - exists bytes. simpl.
    rw length_take.
    replace (Z.to_nat (line_position c) `min` length bytes)%nat
      with (Z.to_nat (line_position c)) by lia.
    split; [|split; [done|split; [done|lia]]].
    rw app_nil_r. f_equal.
    destruct m as [reg inv o], c as [r er lb sz p n ec];
      simpl in *; subst.
    unfold set_line_position, set_line_buffer; simpl.
    do 3 f_equal. lia.
  - set (p := Z.to_nat (line_position c)).
    assert (Hp : (p < length bytes)%nat) by (subst p; lia).
    assert (Hcur : size_t (line_position c + 1) = line_position c + 1)
      by (apply size_t_small; lia).
    assert (Hnext : Z.to_nat (line_position c + 1) = S p)
      by (subst p; lia).
    assert (Hcomp : completes e mw (take p bytes ++ [ch]) ch
                    = (mw <=? line_position c + 1)
                      || (0 <=? e) && (uint8_t ch =? uint8_t e)).
    { unfold completes. rw length_app length_take /=.
      do 2 f_equal. lia. }
    simpl split_frames. rw Hcomp.
    simpl feed_loop. rw Hobj Hbuf (store_in_bounds _ _ _ Hpos).
    fold p. simpl. rw Hcur.
    destruct ((mw <=? line_position c + 1)
              || (0 <=? e) && (uint8_t ch =? uint8_t e)) eqn:Hdone.
    + (* the frame is complete: cursor to 0, then the callback *)
      unfold serial_input_dispatch_data, serial_input_invoke. simpl.
      rw size_t_int Hcur Hnext (take_store _ _ _ Hp).
      replace (receive_ref c =? LUA_NOREF) with false by lia.
      replace (line_position c + 1 =? 0) with false by lia. simpl.
      edestruct (IH
        (log_call (frame_call m c (take p bytes ++ [ch]))
           (set_obj
              (set_line_position 0
                 (set_line_position (line_position c + 1)
                    (set_line_buffer (Some (<[p := ch]> bytes)) c))) m))
        (set_line_position 0
           (set_line_position (line_position c + 1)
              (set_line_buffer (Some (<[p := ch]> bytes)) c)))
        (<[p := ch]> bytes)) as (bytes' & Hrun & Hlen & Htake & Hlt);
        simpl; rw ?length_insert; try done; try lia.
      simpl in Hrun, Htake, Hlt.
      rw length_insert in Hlen Hlt.
      change (take (Z.to_nat 0) (<[p := ch]> bytes)) with (@nil Z)
        in Hrun, Htake, Hlt.
      destruct (split_frames e mw [] input) as [fs r] eqn:Hsplit.
      simpl in Hrun, Htake, Hlt |- *.
      exists bytes'.
      split; [|split; [done|split; [done|lia]]].
      fold (frame_call m c (take p bytes ++ [ch])).
      rw Hrun. by rw -app_assoc.
    + (* the frame goes on *)
      assert (Hroom : line_position c + 1 < mw).
      { apply orb_false_iff in Hdone as [Hdone _]. lia. }
      edestruct (IH
        (set_obj
           (set_line_position (line_position c + 1)
              (set_line_buffer (Some (<[p := ch]> bytes)) c)) m)
        (set_line_position (line_position c + 1)
           (set_line_buffer (Some (<[p := ch]> bytes)) c))
        (<[p := ch]> bytes)) as (bytes' & Hrun & Hlen & Htake & Hlt);
        simpl; rw ?length_insert; try done; try lia.
      simpl in Hrun, Htake, Hlt.
      rw length_insert in Hlen Hlt.
      rw Hnext (take_store _ _ _ Hp) in Hrun Htake Hlt.
      exists bytes'.
      split; [|split; [done|split; [done|lia]]].
      by rw Hrun.
Qed.

Lemma fresh_ref_pos (reg : gmap Z lua_value) : 1 <= fresh_ref reg.
Proof.
  unfold fresh_ref.
  pose proof (map_fold_weak_ind (fun r (_ : gmap Z lua_value) => 0 <= r)
                (fun k (_ : lua_value) acc => Z.max k acc) 0) as Hind.
  enough (0 <= map_fold (fun k (_ : lua_value) acc => Z.max k acc) 0 reg)
    by lia.
  apply Hind; [done|]. intros; lia.
Qed.

Lemma machine_eta (m : machine) (c : serial_input_cfg) :
  obj m = Some c ->
  m = {| registry := registry m; invoked := invoked m; obj := Some c |}.
Proof. destruct m; simpl; by intros ->. Qed.

Lemma cfg_eta (c : serial_input_cfg) (bytes : list Z) :
  line_buffer c = Some bytes ->
  set_line_position (line_position c) (set_line_buffer (Some bytes) c) = c.
Proof. destruct c; simpl; by intros ->. Qed.

(** [serial_input_feed_data] on a stream with a buffer, in terms of
    [split_frames]. *)
Lemma feed_data_frames (m : machine) (c : serial_input_cfg)
    (bytes input : list Z) :
  obj m = Some c ->
  line_buffer c = Some bytes ->
  receive_ref c <> LUA_NOREF ->
  0 <= line_position c < Z.of_nat (length bytes) ->
  max_wanted_of c <= Z.of_nat (length bytes) ->
  Z.of_nat (length bytes) <= SIZE_MAX ->
  let split :=
    split_frames (end_char c) (max_wanted_of c)
      (take (Z.to_nat (line_position c)) bytes) input in
  exists bytes',
    serial_input_feed_data m (Some input) =
      Returns
        {| registry := registry m;
           invoked := invoked m ++ (frame_call m c <$> split.1);
           obj :=
             Some
               (set_line_position (Z.of_nat (length split.2))
                  (set_line_buffer (Some bytes') c)) |}
    /\ length bytes' = length bytes
    /\ take (length split.2) bytes' = split.2
    /\ Z.of_nat (length split.2) < Z.of_nat (length bytes).
Proof.
  intros Hobj Hbuf Href Hpos Hmw Hmax split.
  destruct input as [|ch input].
  - exists bytes. subst split. simpl.
    unfold serial_input_feed_data. rw Hobj Hbuf.
    rw length_take.
    replace (Z.to_nat (line_position c) `min` length bytes)%nat
      with (Z.to_nat (line_position c)) by lia.
    split; [|split; [done|split; [done|lia]]].
    rw app_nil_r Z2Nat.id; [lia|].
    rw (cfg_eta _ _ Hbuf). f_equal. by apply machine_eta.
  - unfold serial_input_feed_data. rw Hobj Hbuf.
    by apply feed_loop_frames.
Qed.

(** *** Registration *)

Lemma set_obj_same (m : machine) (c : serial_input_cfg) :
  obj m = Some c -> set_obj c m = m.
Proof. destruct m; simpl; by intros ->. Qed.

Lemma parse_policy_returns (m : machine) (c : serial_input_cfg)
    (args : list lua_value) :
  obj m = Some c ->
  single_byte_marker (lua_arg args 2) ->
  parse_policy m args
  = Returns (set_obj (policy_of (lua_arg args 2) c) m, fn_index args).
Proof.
  intros Hobj Hmark. unfold parse_policy, fn_index, with_cfg.
  destruct (lua_arg args 2) as [|n|e|f] eqn:Ha2; simpl.
  - rw (set_obj_same _ _ Hobj). by destruct (lua_isfunction _).
  - rw Hobj. by destruct (lua_isfunction _).
  - rw (bool_decide_eq_true_2 _ (Hmark e eq_refl)) Hobj.
    by destruct (lua_isfunction _).
  - by rw (set_obj_same _ _ Hobj).
Qed.

Lemma fn_index_function (args : list lua_value) :
  fn_index args <> -1 ->
  lua_isfunction (lua_arg args (Z.to_nat (fn_index args))) = true.
Proof.
  unfold fn_index.
  destruct (lua_isfunction (lua_arg args 2)) eqn:H2; [done|].
  destruct (lua_isfunction (lua_arg args 3)) eqn:H3; done.
Qed.

Lemma set_receive_ref_same (c : serial_input_cfg) :
  receive_ref c = LUA_NOREF -> set_receive_ref LUA_NOREF c = c.
Proof. destruct c; simpl; by intros ->. Qed.

(** Lines 156-173, the callback being at [fn_idx]. *)
Lemma register_data_function (m : machine) (c : serial_input_cfg)
    (args : list lua_value) (fn_idx : Z) (realloc_ok : bool) :
  obj m = Some c ->
  fn_idx <> -1 ->
  lua_isfunction (lua_arg args (Z.to_nat fn_idx)) = true ->
  let reg' :=
    <[fresh_ref (released m c) := lua_arg args (Z.to_nat fn_idx)]>
      (released m c) in
  let c2 := set_receive_ref (fresh_ref (released m c)) c in
  register_data m args fn_idx realloc_ok =
    if line_buffer_size c <? required_size c then
      match realloc (line_buffer c) (required_size c) realloc_ok with
      | Some p =>
          Returns
            {| registry := reg'; invoked := invoked m;
               obj :=
                 Some
                   (set_line_buffer_size (required_size c)
                      (set_line_buffer (Some p) c2)) |}
      | None =>
          Raises "out of mem"
            {| registry := reg'; invoked := invoked m;
               obj :=
                 Some
                   (set_line_buffer_size 0 (set_line_buffer None c2)) |}
      end
    else Returns {| registry := reg'; invoked := invoked m;
                    obj := Some c2 |}.
Proof.
  intros Hobj Hidx Hfn. unfold register_data, with_cfg, released.
  rw Hobj.
  replace (fn_idx =? -1) with false by lia.
  destruct (lua_arg args (Z.to_nat fn_idx)) as [| |?|f]; try done.
  destruct (receive_ref c =? LUA_NOREF); simpl;
    change (required_size (set_receive_ref _ _)) with (required_size c);
    destruct (line_buffer_size c <? required_size c); try done;
    by destruct (realloc _ _ _).
Qed.

(** Lines 175-181, no callback being given. *)
Lemma register_data_nothing (m : machine) (c : serial_input_cfg)
    (args : list lua_value) (realloc_ok : bool) :
  obj m = Some c ->
  register_data m args (-1) realloc_ok =
    Returns
      {| registry := released m c; invoked := invoked m;
         obj :=
           Some
             (set_line_position 0
                (set_line_buffer_size 0
                   (set_line_buffer None
                      (set_receive_ref LUA_NOREF c)))) |}.
Proof.
  intros Hobj. unfold register_data, with_cfg, released. rw Hobj. simpl.
  destruct (receive_ref c =? LUA_NOREF) eqn:Href; simpl; [|done].
  rw set_receive_ref_same; [lia|done].
Qed.

(** The whole call, for the "data" method. *)
Lemma register_data_method (m : machine) (c : serial_input_cfg)
    (args : list lua_value) (method : list Z) (realloc_ok : bool) :
  obj m = Some c ->
  lua_arg args 1 = LString method ->
  c_str method = chars "data" ->
  single_byte_marker (lua_arg args 2) ->
  serial_input_register m args realloc_ok
  = register_data (set_obj (policy_of (lua_arg args 2) c) m) args
      (fn_index args) realloc_ok.
Proof.
  intros Hobj Harg Hmethod Hmark. unfold serial_input_register.
  rw Harg Hmethod (parse_policy_returns _ _ _ Hobj Hmark).
  done.
Qed.

Lemma register_bad_marker (m : machine) (args : list lua_value)
    (method e : list Z) (realloc_ok : bool) :
  lua_arg args 1 = LString method ->
  lua_arg args 2 = LString e ->
  length e <> 1%nat ->
  serial_input_register m args realloc_ok
  = (if negb (bool_decide (c_str method = chars "data"))
        && negb (bool_decide (c_str method = chars "error"))
     then Raises "method not supported" m
     else Raises "only single byte end marker supported" m).
Proof.
  intros Harg He Hlen. unfold serial_input_register, parse_policy.
  rw Harg He (bool_decide_eq_false_2 _ Hlen).
  by destruct (negb _ && negb _).
Qed.

Lemma fn_index_or (args : list lua_value) :
  lua_isfunction (lua_arg args 2) || lua_isfunction (lua_arg args 3) = true
  <-> fn_index args <> -1.
Proof.
  unfold fn_index.
  destruct (lua_isfunction (lua_arg args 2)),
           (lua_isfunction (lua_arg args 3)); simpl; split; done.
Qed.

Lemma realloc_length (old : option (list Z)) (size : Z) (p : list Z) :
  realloc old size true = Some p -> length p = Z.to_nat size.
Proof.
  unfold realloc. intros [= <-].
  rw length_take length_app length_replicate. lia.
Qed.

Lemma realloc_keeps (bytes : list Z) (size : Z) (p : list Z) (n : nat) :
  realloc (Some bytes) size true = Some p ->
  (n <= length bytes)%nat -> (n <= Z.to_nat size)%nat ->
  take n p = take n bytes.
Proof.
  unfold realloc. intros [= <-] Hn Hsize. simpl.
  rw take_take. replace (n `min` Z.to_nat size)%nat with n by lia.
  by rw take_app_le.
Qed.

Lemma released_unref (m : machine) (c : serial_input_cfg) :
  released m c = luaL_unref (registry m) (receive_ref c).
Proof.
  unfold released.
  destruct (Z.eqb_spec (receive_ref c) LUA_NOREF) as [->|]; done.
Qed.

(** Lines 183-194 never touch the data side of the stream. *)
Lemma register_error_returns (m : machine) (c : serial_input_cfg)
    (args : list lua_value) (fn_idx : Z) :
  obj m = Some c ->
  exists (reg' : gmap Z lua_value) (ref' : Z),
    register_error m args fn_idx
    = Returns {| registry := reg'; invoked := invoked m;
                 obj := Some (set_error_ref ref' c) |}.
Proof.
  intros Hobj. unfold register_error, with_cfg. rw Hobj.
  destruct (negb (error_ref c =? LUA_NOREF)) eqn:Hold; simpl;
    destruct (negb (fn_idx =? -1)); simpl;
    try destruct (luaL_ref _ _) as [ref reg2]; simpl;
    try (by eexists _, _).
  exists (registry m), (error_ref c). by destruct c.
Qed.

(** *** What every call of [serial_input_register] preserves *)

Lemma policy_of_data_side (a2 : lua_value) (c : serial_input_cfg) :
  receive_ref (policy_of a2 c) = receive_ref c
  /\ line_buffer (policy_of a2 c) = line_buffer c
  /\ line_buffer_size (policy_of a2 c) = line_buffer_size c
  /\ line_position (policy_of a2 c) = line_position c
  /\ error_ref (policy_of a2 c) = error_ref c.
Proof. by destruct a2. Qed.

Lemma required_size_unfed (c : serial_input_cfg) :
  line_position c = 0 -> 1 <= required_size c.
Proof.
  intros Hpos. unfold required_size, MAX_SERIAL_INPUT. rw Hpos.
  destruct (Z.ltb_spec 0 (need_len c));
    destruct (Z.leb_spec (need_len c) 0);
    destruct (Z.leb_spec 255 0); lia.
Qed.

Lemma marker_cases (a2 : lua_value) :
  single_byte_marker a2
  \/ exists e, a2 = LString e /\ length e <> 1%nat.
Proof.
  destruct a2 as [|n|e|f]; try (left; by intros ? [=]).
  destruct (decide (length e = 1%nat)) as [Hlen|Hlen].
  - left. by intros ? [= <-].
  - right. by exists e.
Qed.

Lemma register_preserves (m : machine) (c : serial_input_cfg)
    (args : list lua_value) (realloc_ok : bool) :
  obj m = Some c ->
  callback_has_buffer c ->
  exists (m' : machine) (c' : serial_input_cfg),
    ends_in (serial_input_register m args realloc_ok) m'
    /\ obj m' = Some c'
    /\ callback_has_buffer c'
    /\ (realloc_ok = true ->
        buffer_has_callback c -> buffer_has_callback c').
Proof.
  intros Hobj [Hpos Hcb].
  assert (Hstay : forall msg,
    exists (m' : machine) (c' : serial_input_cfg),
      ends_in (Raises msg m) m'
      /\ obj m' = Some c'
      /\ callback_has_buffer c'
      /\ (realloc_ok = true ->
          buffer_has_callback c -> buffer_has_callback c')).
  { intros msg. exists m, c.
    split; [right; by exists msg|]. by split; [|split]. }
  destruct (lua_arg args 1) as [|n|method|f] eqn:Harg;
    try (unfold serial_input_register; rw Harg; by apply Hstay).
  destruct (marker_cases (lua_arg args 2))
    as [Hmark|(e & He & Hlen)].
  2:{ rw (register_bad_marker _ _ _ _ _ Harg He Hlen).
      destruct (negb _ && negb _); by apply Hstay. }
  unfold serial_input_register.
  rw Harg (parse_policy_returns _ _ _ Hobj Hmark).
  destruct (negb (bool_decide (c_str method = chars "data"))
            && negb (bool_decide (c_str method = chars "error")));
    [by apply Hstay|].
  destruct (policy_of_data_side (lua_arg args 2) c)
    as (Hr1 & Hb1 & Hs1 & Hp1 & _).
  set (c1 := policy_of (lua_arg args 2) c) in *.
  destruct (bool_decide (c_str method = chars "data")).
  - (* "data" *)
    destruct (decide (fn_index args = -1)) as [->|Hfn].
    + rw (register_data_nothing (set_obj c1 m) c1); [done|].
      eexists _, _. split; [by left|]. split; [reflexivity|].
      split; [done|]. by intros _ _ _.
    + rw (register_data_function (set_obj c1 m) c1);
        [done|done|by apply fn_index_function|].
      pose proof (fresh_ref_pos (released (set_obj c1 m) c1)) as Hfresh.
      pose proof (required_size_unfed c1 ltac:(lia)) as Hreq.
      assert (Hnew : fresh_ref (released (set_obj c1 m) c1) <> LUA_NOREF)
        by (unfold LUA_NOREF; lia).
      destruct (Z.ltb_spec (line_buffer_size c1) (required_size c1)).
      * destruct realloc_ok; simpl.
        -- eexists _, _. split; [by left|]. split; [reflexivity|].
           split; [split; simpl; [lia|done]|]. by intros _ _ ?.
        -- eexists _, _. split; [right; by eexists|].
           split; [reflexivity|].
           split; [split; simpl; [lia|done]|]. by intros ?.
      * eexists _, _. split; [by left|]. split; [reflexivity|].
        split; [split; simpl; [lia|done]|].
        intros _ Hinv Hnone. simpl in Hnone. rw Hb1 in Hnone.
        destruct (Hinv Hnone) as [_ Hzero]. lia.
  - (* "error" *)
    destruct (register_error_returns (set_obj c1 m) c1 args
                (fn_index args)) as (reg' & ref' & ->); [done|].
    eexists _, _. split; [by left|]. split; [reflexivity|].
    split.
    + split; simpl; [lia|]. rw Hr1 Hb1. apply Hcb.
    + intros _ Hinv Hnone. simpl in Hnone |- *. rw Hb1 in Hnone.
      rw Hr1 Hs1. by apply Hinv.
Qed.

Lemma register_calls_preserve (calls : list (list lua_value * bool)) :
  forall (m : machine) (c : serial_input_cfg),
    obj m = Some c ->
    callback_has_buffer c ->
    exists (m' : machine) (c' : serial_input_cfg),
      register_calls m calls = Returns m'
      /\ obj m' = Some c'
      /\ callback_has_buffer c'
      /\ (Forall (fun call => call.2 = true) calls ->
          buffer_has_callback c -> buffer_has_callback c').
Proof.
  induction calls as [|[args ok] calls IH]; intros m c Hobj Hinv.
  - by exists m, c.
  - destruct (register_preserves m c args ok Hobj Hinv)
      as (m1 & c1 & Hend & Hobj1 & Hinv1 & Hstrong1).
    destruct (IH m1 c1 Hobj1 Hinv1)
      as (m' & c' & Hrun & Hobj' & Hinv' & Hstrong').
    exists m', c'. simpl.
    split.
    { destruct Hend as [->|[msg ->]]; done. }
    split; [done|]. split; [done|].
    intros Hall Hstrong.
    apply Forall_cons in Hall as [Hok Hall]. simpl in Hok.
    by apply Hstrong', Hstrong1.
Qed.

(** *** The cursor stays inside the buffer on plain calls *)

Lemma uint16_t_range (z : Z) : 0 <= uint16_t z < 2 ^ 16.
Proof. unfold uint16_t. by apply Z.mod_pos_bound. Qed.

Lemma policy_of_need_len (a2 : lua_value) (c : serial_input_cfg) :
  0 <= need_len c < 2 ^ 16 -> 0 <= need_len (policy_of a2 c) < 2 ^ 16.
Proof.
  intros Hc. destruct a2; simpl; try done; apply uint16_t_range.
Qed.

Lemma required_size_bounds (c : serial_input_cfg) :
  0 <= need_len c < 2 ^ 16 ->
  0 <= line_position c < SIZE_MAX ->
  line_position c < required_size c
  /\ need_len c <= required_size c
  /\ required_size c <= Z.max (2 ^ 16) (line_position c + 1).
Proof.
  intros Hneed Hpos. unfold required_size, MAX_SERIAL_INPUT.
  destruct (Z.ltb_spec 0 (need_len c));
    match goal with
    | |- context [?a <=? ?b] => destruct (Z.leb_spec a b)
    end;
    rw ?size_t_small; lia.
Qed.

Lemma max_wanted_of_le (c : serial_input_cfg) (size : Z) :
  line_buffer_size c = size ->
  need_len c <= size ->
  max_wanted_of c <= size.
Proof.
  intros <- H. unfold max_wanted_of.
  destruct ((0 <=? end_char c) && (need_len c =? 0)); lia.
Qed.

Lemma feed_data_consistent (m : machine) (c : serial_input_cfg)
    (buf : option (list Z)) :
  obj m = Some c ->
  consistent c ->
  Forall (fun i => seen_position i = Some 0) (invoked m) ->
  exists (m' : machine) (c' : serial_input_cfg),
    serial_input_feed_data m buf = Returns m'
    /\ obj m' = Some c'
    /\ consistent c'
    /\ Forall (fun i => seen_position i = Some 0) (invoked m').
Proof.
  intros Hobj Hc Hseen.
  destruct buf as [input|].
  2:{ exists m, c. unfold serial_input_feed_data. by rw Hobj. }
  destruct (line_buffer c) as [bytes|] eqn:Hbuf.
  2:{ exists m, c. unfold serial_input_feed_data. by rw Hobj Hbuf. }
  destruct Hc as [Hneed Hc]. rw Hbuf in Hc.
  destruct Hc as (Hsize & Hpos & Hmw & Hmax & Href).
  destruct (feed_data_frames m c bytes input)
    as (bytes' & Hrun & Hlen & _ & Hrest); try done; try lia.
  eexists _, _. split; [exact Hrun|]. split; [reflexivity|].
  split.
  - split; [done|]. simpl.
    change (max_wanted_of (set_line_position _ (set_line_buffer _ c)))
      with (max_wanted_of c).
    repeat split; try done; lia.
  - simpl. apply Forall_app. split; [done|].
    apply Forall_fmap. by apply Forall_true.
Qed.

Lemma register_consistent (m : machine) (c : serial_input_cfg)
    (args : list lua_value) :
  obj m = Some c ->
  consistent c ->
  plain (OnCall args true) ->
  exists (m' : machine) (c' : serial_input_cfg),
    ends_in (serial_input_register m args true) m'
    /\ obj m' = Some c'
    /\ consistent c'
    /\ invoked m' = invoked m.
Proof.
  intros Hobj Hc [_ Hplain].
  assert (Hstay : forall msg,
    exists (m' : machine) (c' : serial_input_cfg),
      ends_in (Raises msg m) m'
      /\ obj m' = Some c' /\ consistent c' /\ invoked m' = invoked m).
  { intros msg. exists m, c. split; [right; by exists msg|done]. }
  destruct (lua_arg args 1) as [|n|method|f] eqn:Harg;
    try (unfold serial_input_register; rw Harg; by apply Hstay).
  destruct (marker_cases (lua_arg args 2)) as [Hmark|(e & He & Hlen)].
  2:{ rw (register_bad_marker _ _ _ _ _ Harg He Hlen).
      destruct (negb _ && negb _); by apply Hstay. }
  unfold serial_input_register.
  rw Harg (parse_policy_returns _ _ _ Hobj Hmark).
  destruct (bool_decide (c_str method = chars "data")) eqn:Hdata;
    cbn [negb andb].
  - (* "data" *)
    destruct (policy_of_data_side (lua_arg args 2) c)
      as (Hr1 & Hb1 & Hs1 & Hp1 & _).
    destruct Hc as [Hneed Hc].
    pose proof (policy_of_need_len (lua_arg args 2) c Hneed) as Hneed1.
    set (c1 := policy_of (lua_arg args 2) c) in *.
    destruct (decide (fn_index args = -1)) as [->|Hfn].
    + rw (register_data_nothing (set_obj c1 m) c1); [done|].
      eexists _, _. split; [by left|]. split; [reflexivity|].
      split; [|done]. by split.
    + rw (register_data_function (set_obj c1 m) c1);
        [done|done|by apply fn_index_function|].
      pose proof (fresh_ref_pos (released (set_obj c1 m) c1)) as Hfresh.
      assert (Hnew : fresh_ref (released (set_obj c1 m) c1) <> LUA_NOREF)
        by (unfold LUA_NOREF; lia).
      assert (Hposmax : 0 <= line_position c1 < SIZE_MAX).
      { rw Hp1. destruct (line_buffer c); [lia|].
        destruct Hc as (_ & -> & _). unfold SIZE_MAX. lia. }
      destruct (required_size_bounds c1 Hneed1 Hposmax)
        as (Hreq1 & Hreq2 & Hreq3).
      destruct (Z.ltb_spec (line_buffer_size c1) (required_size c1))
        as [Hgrow|Hfits]; simpl.
      * eexists _, _. split; [by left|]. split; [reflexivity|].
        split; [|done]. split; [done|]. simpl.
        rw length_take length_app length_replicate.
        split; [lia|]. split; [lia|].
        split; [apply max_wanted_of_le; simpl; [done|lia]|].
        split; [|done].
        destruct (line_buffer c); unfold SIZE_MAX in *; lia.
      * eexists _, _. split; [by left|]. split; [reflexivity|].
        split; [|done]. split; [done|]. simpl. rw Hb1.
        destruct (line_buffer c) as [bytes|].
        -- destruct Hc as (Hsize & Hpos & _ & Hmax & _).
           split; [lia|]. split; [lia|].
           split; [apply max_wanted_of_le; simpl; [done|lia]|].
           split; [lia|done].
        -- destruct Hc as (Hzero & _). lia.
  - (* "error", or neither *)
    destruct (bool_decide (c_str method = chars "error")) eqn:Herror;
      cbn [negb]; [|by apply Hstay].
    apply bool_decide_eq_true_1 in Herror.
    assert (Hsame : policy_of (lua_arg args 2) c = c).
    { specialize (Hplain method eq_refl Herror).
      by destruct (lua_arg args 2). }
    rw Hsame.
    destruct (register_error_returns (set_obj c m) c args (fn_index args))
      as (reg' & ref' & ->); [done|].
    eexists _, _. split; [by left|]. split; [reflexivity|].
    split; [|done].
    destruct Hc as [Hneed Hc]. split; [done|]. simpl.
    change (max_wanted_of (set_error_ref ref' c)) with (max_wanted_of c).
    done.
Qed.

(** On a new stream, after any plain calls, the cursor is within the
    buffer, and every call made into Lua found the cursor at 0. *)
Lemma cursor_within_buffer (ops : list operation) :
  Forall plain ops ->
  exists (m' : machine) (c' : serial_input_cfg),
    perform_all
      {| registry := ∅; invoked := []; obj := serial_input_new true |} ops
      = Returns m'
    /\ obj m' = Some c'
    /\ 0 <= line_position c' <= line_buffer_size c'
    /\ Forall (fun i => seen_position i = Some 0) (invoked m').
Proof.
  intros Hops.
  assert (Hall : forall (m : machine) (c : serial_input_cfg),
    obj m = Some c ->
    consistent c ->
    Forall (fun i => seen_position i = Some 0) (invoked m) ->
    exists (m' : machine) (c' : serial_input_cfg),
      perform_all m ops = Returns m'
      /\ obj m' = Some c'
      /\ consistent c'
      /\ Forall (fun i => seen_position i = Some 0) (invoked m')).
  { induction Hops as [|o ops Ho Hops IH]; intros m c Hobj Hc Hseen.
    - by exists m, c.
    - destruct o as [args ok|buf]; simpl.
      + destruct Ho as [-> Hplain].
        destruct (register_consistent m c args Hobj Hc)
          as (m1 & c1 & Hend & Hobj1 & Hc1 & Hlog); [by split|].
        destruct (IH m1 c1 Hobj1 Hc1) as (m' & c' & Hrun & H');
          [by rw Hlog|].
        exists m', c'. split; [|done].
        by destruct Hend as [->|[msg ->]].
      + destruct (feed_data_consistent m c buf Hobj Hc Hseen)
          as (m1 & c1 & -> & Hobj1 & Hc1 & Hseen1).
        by apply (IH m1 c1). }
  destruct (Hall {| registry := ∅; invoked := [];
                    obj := serial_input_new true |}
              {| receive_ref := LUA_NOREF; error_ref := LUA_NOREF;
                 line_buffer := None; line_buffer_size := 0;
                 line_position := 0; need_len := 0;
                 end_char := int16_t (-1) |})
    as (m' & c' & Hrun & Hobj & [_ Hc] & Hseen); [done|by split|done|].
  exists m', c'. split; [done|]. split; [done|]. split; [|done].
  destruct (line_buffer c'); lia.
Qed.

End SerialFacts.

(** ** Properties of the framing engine *)

Module SerialClaims.

Import CInt CIntFacts Serial Framing FramingFacts SerialTerms
  Scenarios SerialFacts.

(** C5. A stream holds [line_position] > 0 buffered bytes and a data
    callback is registered again, successfully.  With [requested] the
    capacity the call asks for ([need_len] if positive, 255 otherwise),
    the capacity required is [line_position + 1] whenever [requested] is
    at most [line_position]; the buffer afterwards is the larger of its
    old size and the required one, so it is at least [line_position + 1]
    and never smaller than before; the cursor is unchanged and the
    buffered bytes are the same. *)
Theorem reregister_keeps_buffered (m m' : machine) (c : serial_input_cfg)
    (bytes method : list Z) (args : list lua_value) (realloc_ok : bool) :
  obj m = Some c ->
  line_buffer c = Some bytes ->
  line_buffer_size c = Z.of_nat (length bytes) ->
  0 < line_position c <= line_buffer_size c ->
  line_buffer_size c < SIZE_MAX ->
  lua_arg args 1 = LString method ->
  c_str method = chars "data" ->
  lua_isfunction (lua_arg args 2) || lua_isfunction (lua_arg args 3)
    = true ->
  serial_input_register m args realloc_ok = Returns m' ->
  exists (c' : serial_input_cfg) (bytes' : list Z),
    obj m' = Some c'
    /\ line_buffer c' = Some bytes'
    /\ line_buffer_size c' = Z.of_nat (length bytes')
    /\ line_position c' = line_position c
    /\ (let requested :=
          if 0 <? need_len c' then need_len c' else MAX_SERIAL_INPUT in
        let required :=
          if requested <=? line_position c then line_position c + 1
          else requested in
        line_buffer_size c' = Z.max (line_buffer_size c) required)
    /\ line_position c + 1 <= line_buffer_size c'
    /\ line_buffer_size c <= line_buffer_size c'
    /\ take (Z.to_nat (line_position c)) bytes'
       = take (Z.to_nat (line_position c)) bytes.
Proof.
  intros Hobj Hbuf Hsize Hpos Hmax Harg Hmethod Hfn Hrun.
  assert (Hmark : single_byte_marker (lua_arg args 2)).
  { intros e He. destruct (decide (length e = 1%nat)) as [|Hne]; [done|].
    rw (register_bad_marker _ _ _ _ _ Harg He Hne) in Hrun.
    by destruct (negb _ && negb _). }
  rw (register_data_method _ _ _ _ _ Hobj Harg Hmethod Hmark) in Hrun.
  apply fn_index_or in Hfn.
  set (c1 := policy_of (lua_arg args 2) c) in *.
  assert (Hsame : line_buffer c1 = Some bytes
                  /\ line_buffer_size c1 = line_buffer_size c
                  /\ line_position c1 = line_position c).
  { subst c1. by destruct (lua_arg args 2). }
  destruct Hsame as (Hbuf1 & Hsize1 & Hpos1).
  rw (register_data_function (set_obj c1 m) c1) in Hrun;
    [done|done|by apply fn_index_function|].
  assert (Hreq : required_size c1
                 = if (if 0 <? need_len c1 then need_len c1
                       else MAX_SERIAL_INPUT) <=? line_position c
                   then line_position c + 1
                   else (if 0 <? need_len c1 then need_len c1
                         else MAX_SERIAL_INPUT)).
  { unfold required_size. rw Hpos1.
    destruct (_ <=? line_position c); [|done].
    apply size_t_small. lia. }
  assert (Hreq1 : line_position c + 1 <= required_size c1).
  { rw Hreq. destruct (Z.leb_spec
               (if 0 <? need_len c1 then need_len c1 else MAX_SERIAL_INPUT)
               (line_position c)); lia. }
  destruct (Z.ltb_spec (line_buffer_size c1) (required_size c1))
    as [Hgrow|Hfits].
  - destruct (realloc (line_buffer c1) (required_size c1) realloc_ok)
      as [p|] eqn:Hp; [|done].
    injection Hrun as <-.
    assert (realloc_ok = true) as ->
      by (destruct realloc_ok; [done|by unfold realloc in Hp]).
    pose proof (realloc_length _ _ _ Hp) as Hlen.
    rw Hbuf1 in Hp.
    exists (set_line_buffer_size (required_size c1)
              (set_line_buffer (Some p)
                 (set_receive_ref
                    (fresh_ref (released (set_obj c1 m) c1)) c1))), p.
    simpl. rw -Hreq.
    repeat split; try done; try lia.
    apply (realloc_keeps _ _ _ _ Hp); lia.
  - injection Hrun as <-.
    exists (set_receive_ref (fresh_ref (released (set_obj c1 m) c1)) c1),
      bytes.
    simpl. rw -Hreq.
    repeat split; try done; try lia.
Qed.

Lemma reregister_keeps_buffered_witness :
  exists (c' : serial_input_cfg) (bytes' : list Z),
    obj (machine_after
           (serial_input_register fixed4_ab_machine
              [LString (chars "data"); LNumber 2; LFunction 8%nat] true)
           fresh_machine) = Some c'
    /\ line_buffer c' = Some bytes'
    /\ line_buffer_size c' = Z.of_nat (length bytes')
    /\ line_position c' = 2
    /\ (let requested :=
          if 0 <? need_len c' then need_len c' else MAX_SERIAL_INPUT in
        let required :=
          if requested <=? 2 then 2 + 1 else requested in
        line_buffer_size c' = Z.max 4 required)
    /\ 2 + 1 <= line_buffer_size c'
    /\ 4 <= line_buffer_size c'
    /\ take (Z.to_nat 2) bytes' = take (Z.to_nat 2) [97; 98; 0; 0].
Proof.
  apply (reregister_keeps_buffered fixed4_ab_machine
           (machine_after
              (serial_input_register fixed4_ab_machine
                 [LString (chars "data"); LNumber 2; LFunction 8%nat] true)
              fresh_machine)
           {| receive_ref := 1; error_ref := LUA_NOREF;
              line_buffer := Some [97; 98; 0; 0];
              line_buffer_size := 4; line_position := 2;
              need_len := 4; end_char := -1 |}
           [97; 98; 0; 0] (chars "data")
           [LString (chars "data"); LNumber 2; LFunction 8%nat] true).
  - reflexivity.
  - reflexivity.
  - reflexivity.
  - simpl. lia.
  - unfold SIZE_MAX. simpl. lia.
  - reflexivity.
  - reflexivity.
  - reflexivity.
  - reflexivity.
Defined.

(** C9. A stream has a data callback registered and a partial frame
    buffered, and [on("data")] is called without a function.  The call
    returns; the line buffer is freed ([NULL], size 0), the cursor is 0,
    the callback's reference is released in the registry and cleared in
    the stream; the call makes no call into Lua, and whatever is fed
    afterwards, each feed returns at once with nothing dispatched: the
    partial frame is gone. *)
Theorem unregister_discards_partial_frame (m : machine)
    (c : serial_input_cfg) (method : list Z) (args : list lua_value)
    (realloc_ok : bool) :
  obj m = Some c ->
  receive_ref c <> LUA_NOREF ->
  0 < line_position c ->
  lua_arg args 1 = LString method ->
  c_str method = chars "data" ->
  (forall e, lua_arg args 2 = LString e -> length e = 1%nat) ->
  lua_isfunction (lua_arg args 2) = false ->
  lua_isfunction (lua_arg args 3) = false ->
  exists (m' : machine) (c' : serial_input_cfg),
    serial_input_register m args realloc_ok = Returns m'
    /\ obj m' = Some c'
    /\ line_buffer c' = None
    /\ line_buffer_size c' = 0
    /\ line_position c' = 0
    /\ receive_ref c' = LUA_NOREF
    /\ registry m' = luaL_unref (registry m) (receive_ref c)
    /\ (0 <= receive_ref c ->
        lua_rawgeti (registry m') (receive_ref c) = None)
    /\ invoked m' = invoked m
    /\ forall bufs : list (option (list Z)),
         perform_all m' (FeedCall <$> bufs) = Returns m'.
Proof.
  intros Hobj Href Hpos Harg Hmethod Hmark Hf2 Hf3.
  rw (register_data_method _ _ _ _ _ Hobj Harg Hmethod Hmark).
  assert (fn_index args = -1) as -> by (unfold fn_index; by rw Hf2 Hf3).
  set (c1 := policy_of (lua_arg args 2) c).
  assert (Href1 : receive_ref c1 = receive_ref c)
    by (subst c1; by destruct (lua_arg args 2)).
  rw (register_data_nothing (set_obj c1 m) c1); [done|].
  eexists _, _. split; [reflexivity|]. simpl.
  do 5 (split; [reflexivity|]).
  assert (Hreg : released (set_obj c1 m) c1
                 = luaL_unref (registry m) (receive_ref c)).
  { unfold released. rw Href1. simpl.
    by replace (receive_ref c =? LUA_NOREF) with false by lia. }
  rw Hreg.
  split; [done|]. split; [|split; [done|]].
  - intros Hge. unfold lua_rawgeti, luaL_unref.
    replace (0 <=? receive_ref c) with true by lia.
    apply lookup_delete_eq.
  - intros bufs. induction bufs as [|buf bufs IH]; [done|].
    csimpl. unfold serial_input_feed_data at 1. simpl.
    by destruct buf.
Qed.

Lemma unregister_discards_partial_frame_witness :
  exists (m' : machine) (c' : serial_input_cfg),
    serial_input_register newline_cd_machine [LString (chars "data")] true
      = Returns m'
    /\ obj m' = Some c'
    /\ line_buffer c' = None
    /\ line_buffer_size c' = 0
    /\ line_position c' = 0
    /\ receive_ref c' = LUA_NOREF
    /\ registry m' = luaL_unref (registry newline_cd_machine) 1
    /\ (0 <= 1 -> lua_rawgeti (registry m') 1 = None)
    /\ invoked m' = invoked newline_cd_machine
    /\ forall bufs : list (option (list Z)),
         perform_all m' (FeedCall <$> bufs) = Returns m'.
Proof.
  apply (unregister_discards_partial_frame newline_cd_machine
           newline_cd_cfg (chars "data") [LString (chars "data")] true).
  - reflexivity.
  - discriminate.
  - simpl. lia.
  - reflexivity.
  - reflexivity.
  - intros e He. discriminate He.
  - reflexivity.
  - reflexivity.
Defined.

(** C3, as the code has it.  When the buffer has to grow and
    [realloc] fails, [on("data", ..., f)] raises "out of mem", and by then
    the call has done what it does before it allocates: the previous data
    callback's reference is released and the new function is registered
    under [receive_ref], and the frame policy is already the one the call
    gave.  The error callback's reference and the calls made into Lua are
    as before.  (What becomes of the line buffer is no part of this
    statement.) *)
Theorem registration_out_of_memory (m m1 : machine)
    (c c1 : serial_input_cfg) (method : list Z) (args : list lua_value)
    (fn_idx : Z) :
  obj m = Some c ->
  lua_arg args 1 = LString method ->
  c_str method = chars "data" ->
  parse_policy m args = Returns (m1, fn_idx) ->
  fn_idx <> -1 ->
  obj m1 = Some c1 ->
  line_buffer_size c1 < required_size c1 ->
  exists (m' : machine) (c' : serial_input_cfg),
    serial_input_register m args false = Raises "out of mem" m'
    /\ obj m' = Some c'
    /\ receive_ref c' <> LUA_NOREF
    /\ registry m'
       = <[receive_ref c' := lua_arg args (Z.to_nat fn_idx)]>
           (luaL_unref (registry m) (receive_ref c))
    /\ need_len c' = need_len c1
    /\ end_char c' = end_char c1
    /\ error_ref c' = error_ref c
    /\ invoked m' = invoked m.
Proof.
  intros Hobj Harg Hmethod Hparse Hfn Hobj1 Hgrow.
  destruct (marker_cases (lua_arg args 2)) as [Hmark|(e & He & Hlen)].
  2:{ unfold parse_policy in Hparse.
      by rw He (bool_decide_eq_false_2 _ Hlen) in Hparse. }
  rw (register_data_method _ _ _ _ _ Hobj Harg Hmethod Hmark).
  rw (parse_policy_returns _ _ _ Hobj Hmark) in Hparse.
  injection Hparse as <- <-.
  injection Hobj1 as <-.
  destruct (policy_of_data_side (lua_arg args 2) c)
    as (Hr1 & _ & _ & _ & He1).
  set (c1 := policy_of (lua_arg args 2) c) in *.
  rw (register_data_function (set_obj c1 m) c1);
    [done|done|by apply fn_index_function|].
  replace (line_buffer_size c1 <? required_size c1) with true by lia.
  simpl.
  pose proof (fresh_ref_pos (released (set_obj c1 m) c1)) as Hfresh.
  eexists _, _. split; [reflexivity|]. split; [reflexivity|]. simpl.
  split; [unfold LUA_NOREF; lia|].
  split; [by rw released_unref Hr1|].
  by repeat split.
Qed.

Lemma registration_out_of_memory_witness :
  exists (m' : machine) (c' : serial_input_cfg),
    serial_input_register fixed4_ab_machine
      [LString (chars "data"); LNumber 1000; LFunction 9%nat] false
      = Raises "out of mem" m'
    /\ obj m' = Some c'
    /\ receive_ref c' <> LUA_NOREF
    /\ registry m'
       = <[receive_ref c' := LFunction 9%nat]>
           (luaL_unref (registry fixed4_ab_machine) 1)
    /\ need_len c' = 1000
    /\ end_char c' = -1
    /\ error_ref c' = LUA_NOREF
    /\ invoked m' = invoked fixed4_ab_machine.
Proof.
  apply (registration_out_of_memory fixed4_ab_machine
           (set_obj
              {| receive_ref := 1; error_ref := LUA_NOREF;
                 line_buffer := Some [97; 98; 0; 0];
                 line_buffer_size := 4; line_position := 2;
                 need_len := 1000; end_char := -1 |}
              fixed4_ab_machine)
           {| receive_ref := 1; error_ref := LUA_NOREF;
              line_buffer := Some [97; 98; 0; 0];
              line_buffer_size := 4; line_position := 2;
              need_len := 4; end_char := -1 |}
           {| receive_ref := 1; error_ref := LUA_NOREF;
              line_buffer := Some [97; 98; 0; 0];
              line_buffer_size := 4; line_position := 2;
              need_len := 1000; end_char := -1 |}
           (chars "data")
           [LString (chars "data"); LNumber 1000; LFunction 9%nat] 3).
  - reflexivity.
  - reflexivity.
  - reflexivity.
  - reflexivity.
  - discriminate.
  - reflexivity.
  - reflexivity.
Defined.

(** C3 as the specification states it fails: after "ab" is buffered in a
    4-byte buffer, [on("data", 1000, g)] with a failing [realloc] raises
    "out of mem" and leaves a stream that differs from the one before the
    call: no buffer, size 0, and the reference that named the previous
    callback now names [g]. *)
Lemma registration_out_of_memory_changes_state :
  exists m' : machine,
    serial_input_register fixed4_ab_machine
      [LString (chars "data"); LNumber 1000; LFunction 9%nat] false
      = Raises "out of mem" m'
    /\ obj m' <> obj fixed4_ab_machine
    /\ (line_buffer <$> obj fixed4_ab_machine, line_buffer <$> obj m')
       = (Some (Some [97; 98; 0; 0]), Some None)
    /\ (line_buffer_size <$> obj fixed4_ab_machine,
        line_buffer_size <$> obj m') = (Some 4, Some 0)
    /\ (lua_rawgeti (registry fixed4_ab_machine) 1,
        lua_rawgeti (registry m') 1)
       = (Some (LFunction 7%nat), Some (LFunction 9%nat)).
Proof.
  eexists. split; [reflexivity|].
  split; [discriminate|]. by repeat split.
Qed.

(** C6, as the code has it.  On a stream made by [serial_input_new] and
    then only passed to [serial_input_register], any number of times with
    any arguments: no call crashes; after every call a stream with a line
    buffer has a data callback; and if no call's allocation fails, a
    stream with a data callback has a line buffer too. *)
Theorem buffer_iff_data_callback (reg : gmap Z lua_value)
    (log : list invocation) (calls : list (list lua_value * bool)) :
  exists (m' : machine) (c' : serial_input_cfg),
    register_calls
      {| registry := reg; invoked := log; obj := serial_input_new true |}
      calls = Returns m'
    /\ obj m' = Some c'
    /\ (line_buffer c' <> None -> receive_ref c' <> LUA_NOREF)
    /\ (Forall (fun call => call.2 = true) calls ->
        (line_buffer c' <> None <-> receive_ref c' <> LUA_NOREF)).
Proof.
  destruct (register_calls_preserve calls
              {| registry := reg; invoked := log;
                 obj := serial_input_new true |}
              {| receive_ref := LUA_NOREF; error_ref := LUA_NOREF;
                 line_buffer := None; line_buffer_size := 0;
                 line_position := 0; need_len := 0;
                 end_char := int16_t (-1) |})
    as (m' & c' & Hrun & Hobj & [_ Hcb] & Hbuf); [done|done|].
  exists m', c'. split; [done|]. split; [done|].
  split.
  - intros Hsome Hnone. by apply Hsome, Hcb.
  - intros Hall. split.
    + intros Hsome Hnone. by apply Hsome, Hcb.
    + intros Hcall Hnone.
      by destruct (Hbuf Hall ltac:(done) Hnone) as [? _].
Qed.

Lemma buffer_iff_data_callback_witness :
  exists (m' : machine) (c' : serial_input_cfg),
    register_calls fresh_machine
      [([LString (chars "data"); LString [10]; LFunction 7%nat], true);
       ([LString (chars "error"); LFunction 8%nat], true);
       ([LString (chars "data"); LString (chars "ab")], true);
       ([LString (chars "data"); LNumber 300; LFunction 9%nat], true);
       ([LString (chars "data")], true)]
      = Returns m'
    /\ obj m' = Some c'
    /\ (line_buffer c' <> None -> receive_ref c' <> LUA_NOREF)
    /\ (line_buffer c' <> None <-> receive_ref c' <> LUA_NOREF).
Proof.
  destruct (buffer_iff_data_callback ∅ []
              [([LString (chars "data"); LString [10]; LFunction 7%nat],
                true);
               ([LString (chars "error"); LFunction 8%nat], true);
               ([LString (chars "data"); LString (chars "ab")], true);
               ([LString (chars "data"); LNumber 300; LFunction 9%nat],
                true);
               ([LString (chars "data")], true)])
    as (m' & c' & Hrun & Hobj & Hcb & Hiff).
  exists m', c'. split; [exact Hrun|]. split; [exact Hobj|].
  split; [exact Hcb|]. apply Hiff.
  repeat constructor.
Defined.

(** C6 as the specification states it fails: on a new stream,
    [on("data", 4, f)] with a failing [realloc] raises "out of mem" and
    leaves the callback registered without a line buffer. *)
Lemma data_callback_without_buffer :
  exists m' c',
    register_calls fresh_machine
      [([LString (chars "data"); LNumber 4; LFunction 7%nat], false)]
      = Returns m'
    /\ obj m' = Some c'
    /\ ~ (line_buffer c' <> None <-> receive_ref c' <> LUA_NOREF).
Proof.
  eexists _, _. split; [reflexivity|]. split; [reflexivity|]. simpl.
  intros [_ Hback]. by apply Hback.
Qed.

(** C4, where the code breaks it.  (1) A data callback for frames of 2
    gets a 2-byte buffer; registering an error callback with the number 4
    sets [need_len] to 4 and leaves the buffer alone; the third byte fed
    is then stored at index 2 of the 2-byte buffer.  (2) With "ab"
    buffered, a registration whose [realloc] fails leaves the cursor at 2
    over a buffer of size 0. *)
Theorem cursor_leaves_buffer :
  perform_all fresh_machine
    [OnCall [LString (chars "data"); LNumber 2; LFunction 7%nat] true;
     OnCall [LString (chars "error"); LNumber 4; LFunction 8%nat] true;
     FeedCall (Some (chars "abc"))]
  = Crashes (StoreOutsideBuffer 2 2)
  /\ (fun c => (line_position c, line_buffer_size c))
       <$> stream_after
             (perform_all fresh_machine
                [OnCall
                   [LString (chars "data"); LNumber 4; LFunction 7%nat]
                   true;
                 FeedCall (Some (chars "ab"));
                 OnCall
                   [LString (chars "data"); LNumber 1000; LFunction 9%nat]
                   false])
     = Some (2, 0).
Proof. split; reflexivity. Qed.

End SerialClaims.

(** ** Properties of the console writer *)

Module ConsoleFacts.

Import CInt CIntFacts Console ConsoleTerms.

Lemma to_write_at_le (len written : Z) : to_write_at len written <= MAX_LEN.
Proof.
  unfold to_write_at.
  destruct (Z.ltb_spec MAX_LEN (size_t (len - written))); lia.
Qed.

Lemma to_write_at_pos (len written : Z) :
  0 <= written < len -> len <= SIZE_MAX ->
  0 < to_write_at len written <= len - written.
Proof.
  intros Hw Hlen. unfold to_write_at.
  rw size_t_small; [lia|].
  unfold MAX_LEN. destruct (Z.ltb_spec 255 (len - written)); lia.
Qed.

Lemma to_write_at_min (len written : Z) :
  0 <= written < len -> len <= SIZE_MAX ->
  to_write_at len written = Z.min MAX_LEN (len - written).
Proof.
  intros Hw Hlen. unfold to_write_at.
  rw size_t_small; [lia|].
  unfold MAX_LEN. destruct (Z.ltb_spec 255 (len - written)); lia.
Qed.

Lemma chunked_and_flushed_nil : chunked_and_flushed [].
Proof. intros i bytes Hi. by rw lookup_nil in Hi. Qed.

Lemma chunked_and_flushed_attempt (buf : list Z) (written to_write : Z)
    (between rest : list stdio_call) :
  to_write <= MAX_LEN ->
  between = [] \/ between = [call_ferror]
  \/ between = [call_ferror; call_vTaskDelay 1] ->
  chunked_and_flushed rest ->
  chunked_and_flushed (attempt buf written to_write ++ between ++ rest).
Proof.
  intros Hle Hbetween Hrest i bytes Hi.
  destruct i as [|[|[|i]]]; simpl in Hi; try done.
  - injection Hi as <-. split; [|done].
    rw length_take. unfold MAX_LEN in *. lia.
  - destruct Hbetween as [-> | [-> | ->] ]; simpl in Hi |- *.
    + by apply Hrest.
    + destruct i as [|i]; [done|]. by apply Hrest.
    + destruct i as [|[|i]]; [done..|]. by apply Hrest.
Qed.

(** Whatever the device answers, the calls made are chunked and flushed. *)
Lemma loop_chunked_and_flushed (dev : device) (buf : list Z) (len : Z) :
  forall written,
    chunked_and_flushed (retrying_write_loop dev buf len written).2.
Proof.
  induction dev as [|reply dev IH]; intros written; simpl.
  - destruct (written <? len); apply chunked_and_flushed_nil.
  - destruct (written <? len); [|apply chunked_and_flushed_nil].
    pose proof (to_write_at_le len written) as Hle.
    destruct (0 <? fwrite_returns (reply (to_write_at len written))).
    + simpl.
      apply (chunked_and_flushed_attempt _ _ _ [] _ Hle); [by left|].
      apply IH.
    + destruct (ferror_after (reply (to_write_at len written))); simpl.
      * rw -(app_nil_r [call_ferror]).
        apply (chunked_and_flushed_attempt buf written _ [call_ferror] []
                 Hle); [by right; left|].
        apply chunked_and_flushed_nil.
      * apply (chunked_and_flushed_attempt buf written _
                 [call_ferror; call_vTaskDelay 1] _ Hle); [by right; right|].
        apply IH.
Qed.

(** A device that takes all it is offered gets the payload from [written]
    on, in consecutive chunks, and the loop reports the whole length. *)
Lemma loop_takes_all (buf : list Z) (k : nat) :
  forall written,
    0 <= written <= Z.of_nat (length buf) ->
    Z.of_nat (length buf) <= SIZE_MAX ->
    Z.of_nat (length buf) - written <= MAX_LEN * Z.of_nat k ->
    (retrying_write_loop (replicate k takes_all) buf
       (Z.of_nat (length buf)) written).1
    = Written (Z.of_nat (length buf))
    /\ concat
         (fwrites
            (retrying_write_loop (replicate k takes_all) buf
               (Z.of_nat (length buf)) written).2)
       = drop (Z.to_nat written) buf.
Proof.
  induction k as [|k IH]; intros written Hw Hmax Hk; simpl.
  - assert (written = Z.of_nat (length buf)) as -> by lia.
    rw Z.ltb_irrefl. simpl. split; [done|].
    rw drop_ge; [lia|done].
  - destruct (Z.ltb_spec written (Z.of_nat (length buf))) as [Hlt|Hge].
    + pose proof (to_write_at_pos (Z.of_nat (length buf)) written
                    ltac:(lia) Hmax) as Hpos.
      pose proof (to_write_at_min (Z.of_nat (length buf)) written
                    ltac:(lia) Hmax) as Hle.
      replace (0 <? to_write_at (Z.of_nat (length buf)) written)
        with true by lia.
      rw size_t_small; [lia|].
      destruct (IH (written + to_write_at (Z.of_nat (length buf)) written))
        as [Hres Hcat]; [lia|done|unfold MAX_LEN in *; lia|].
      simpl. split; [done|].
      rw Hcat.
      rw -{2}(take_drop
               (Z.to_nat (to_write_at (Z.of_nat (length buf)) written))
               (drop (Z.to_nat written) buf)).
      f_equal. rw drop_drop. f_equal. lia.
    + assert (written = Z.of_nat (length buf)) as -> by lia.
      simpl. split; [done|].
      rw drop_ge; [lia|done].
Qed.

End ConsoleFacts.

Module ConsoleClaims.

Import CInt CIntFacts Console ConsoleTerms ConsoleFacts.

(** C7.  Whatever the device answers, every [fwrite] that
    [retrying_write] issues carries at most 255 bytes and is followed at
    once by [fflush] and [fsync], before anything else is attempted.  When
    every write succeeds in full, the chunks written are consecutive pieces
    of the payload: put end to end they are the payload, and the count
    returned is its length.  A payload of 600 bytes then goes out as
    chunks of 255, 255 and 90 bytes, in that order, each flushed and
    synced. *)
Theorem writer_chunks_and_flushes :
  (forall (dev : device) (buf : list Z),
     chunked_and_flushed (retrying_write dev buf).2)
  /\ (forall (buf : list Z) (k : nat),
        Z.of_nat (length buf) <= MAX_LEN * Z.of_nat k ->
        Z.of_nat (length buf) < 2 ^ 31 ->
        (retrying_write (replicate k takes_all) buf).1
        = Written (Z.of_nat (length buf))
        /\ concat (fwrites (retrying_write (replicate k takes_all) buf).2)
           = buf)
  /\ (forall buf : list Z,
        length buf = 600%nat ->
        retrying_write (replicate 3 takes_all) buf
        = (Written 600,
           [call_fwrite (take 255 buf); call_fflush; call_fsync;
            call_fwrite (take 255 (drop 255 buf)); call_fflush; call_fsync;
            call_fwrite (take 90 (drop 510 buf)); call_fflush; call_fsync])).
Proof.
  split; [|split].
  - intros dev buf. apply loop_chunked_and_flushed.
  - intros buf k Hk Hlen.
    destruct (loop_takes_all buf k 0) as [Hres Hcat];
      [lia|unfold SIZE_MAX; lia|lia|].
    unfold retrying_write. simpl. rw Hres Hcat. split; [|done].
    f_equal. unfold int. rw Z.mod_small; lia.
  - intros buf Hlen. unfold retrying_write. rw Hlen. reflexivity.
Qed.

Lemma writer_chunks_and_flushes_witness :
  (retrying_write (replicate 3 takes_all) (replicate 600 65)).1
  = Written (Z.of_nat (length (replicate 600 65)))
  /\ concat
       (fwrites (retrying_write (replicate 3 takes_all) (replicate 600 65)).2)
     = replicate 600 65.
Proof.
  apply (proj1 (proj2 writer_chunks_and_flushes) (replicate 600 65) 3%nat).
  - rw length_replicate. unfold MAX_LEN. lia.
  - rw length_replicate. lia.
Defined.

(** C8.  An attempt on which [fwrite] returns 0: with no error flagged on
    the stream, the loop calls [vTaskDelay(1)] and goes on from the same
    [written], so the next attempt offers the same chunk; with an error
    flagged, the loop stops, and [written], the count of the bytes taken so
    far, is what is returned.  So when a device takes some bytes on each of
    several attempts and then fails, [retrying_write] returns the sum of
    what it took.  (The error indicator is read only after an [fwrite] that
    returned 0.) *)
Theorem writer_retries_or_stops :
  (forall (reply : Z -> stdout_reply) (dev : device) (buf : list Z)
          (len written : Z),
     written < len ->
     fwrite_returns (reply (to_write_at len written)) = 0 ->
     ferror_after (reply (to_write_at len written)) = false ->
     retrying_write_loop (reply :: dev) buf len written
     = and_then
         (attempt buf written (to_write_at len written)
          ++ [call_ferror; call_vTaskDelay 1])
         (retrying_write_loop dev buf len written))
  /\ (forall (reply : Z -> stdout_reply) (dev : device) (buf : list Z)
            (len written : Z),
        written < len ->
        fwrite_returns (reply (to_write_at len written)) = 0 ->
        ferror_after (reply (to_write_at len written)) = true ->
        retrying_write_loop (reply :: dev) buf len written
        = (Written written,
           attempt buf written (to_write_at len written) ++ [call_ferror]))
  /\ (forall (taken : list (Z * bool)) (dev : device) (buf : list Z),
        Forall (fun t => 0 < t.1) taken ->
        foldr Z.add 0 (fst <$> taken) < Z.of_nat (length buf) ->
        Z.of_nat (length buf) < 2 ^ 31 ->
        (retrying_write
           (((fun t => answers t.1 t.2) <$> taken) ++ failed :: dev) buf).1
        = Written (foldr Z.add 0 (fst <$> taken)))
  /\ retrying_write [takes 2; busy; takes 1; failed; takes_all]
       (chars "abcdef")
     = (Written 3,
        [call_fwrite (chars "abcdef"); call_fflush; call_fsync;
         call_fwrite (chars "cdef"); call_fflush; call_fsync;
         call_ferror; call_vTaskDelay 1;
         call_fwrite (chars "cdef"); call_fflush; call_fsync;
         call_fwrite (chars "def"); call_fflush; call_fsync;
         call_ferror]).
Proof.
  split; [|split; [|split]].
  - intros reply dev buf len written Hlt Hzero Hok. simpl.
    replace (written <? len) with true by lia.
    by rw Hzero Hok.
  - intros reply dev buf len written Hlt Hzero Herr. simpl.
    replace (written <? len) with true by lia.
    by rw Hzero Herr.
  - intros taken dev buf Hpos Hsum Hlen.
    assert (Hnonneg : forall ts : list (Z * bool),
              Forall (fun t => 0 < t.1) ts -> 0 <= foldr Z.add 0 (fst <$> ts)).
    { intros ts Hts. induction Hts; csimpl; lia. }
    assert (Hloop : forall written,
      0 <= written ->
      written + foldr Z.add 0 (fst <$> taken) < Z.of_nat (length buf) ->
      (retrying_write_loop
         (((fun t => answers t.1 t.2) <$> taken) ++ failed :: dev) buf
         (Z.of_nat (length buf)) written).1
      = Written (written + foldr Z.add 0 (fst <$> taken))).
    { induction Hpos as [|[n err] ts Hn Hpos IH]; intros written Hw Hroom;
        csimpl in *.
      - replace (written <? Z.of_nat (length buf)) with true by lia.
        simpl. f_equal. lia.
      - pose proof (Hnonneg ts Hpos).
        replace (written <? Z.of_nat (length buf)) with true by lia.
        replace (0 <? n) with true by lia. simpl.
        rw size_t_small; [unfold SIZE_MAX; lia|].
        rw IH; [lia..|]. f_equal. lia. }
    unfold retrying_write. rw Hloop; [lia..|]. simpl.
    pose proof (Hnonneg taken Hpos).
    f_equal. unfold int. rw Z.mod_small; lia.
  - reflexivity.
Qed.

Lemma writer_retries_or_stops_witness :
  (retrying_write
     (((fun t => answers t.1 t.2) <$> [(2, false); (1, true)])
      ++ failed :: [takes_all])
     (chars "abcdef")).1
  = Written (foldr Z.add 0 (fst <$> [(2, false); (1, true)])).
Proof.
  apply (proj1 (proj2 (proj2 writer_retries_or_stops))
           [(2, false); (1, true)] [takes_all] (chars "abcdef")).
  - repeat constructor.
  - simpl. lia.
  - simpl. lia.
Defined.

End ConsoleClaims.

(** ** Further properties of the framing engine *)

Module RegistryFacts.

Import CInt CIntFacts Serial SerialTerms SerialFacts RegistrationTerms.

Lemma fresh_ref_unused (reg : gmap Z lua_value) :
  reg !! fresh_ref reg = None.
Proof.
  unfold fresh_ref.
  assert (H : forall k : Z, is_Some (reg !! k) ->
            k <= map_fold (fun k _ acc => Z.max k acc) 0 reg).
  { apply (map_fold_weak_ind
             (fun r (m : gmap Z lua_value) =>
                forall k : Z, is_Some (m !! k) -> k <= r)).
    - intros k [x Hx]. by rw lookup_empty in Hx.
    - intros i x m r Hi IH k Hk.
      apply lookup_insert_is_Some' in Hk as [->|Hk]; [lia|].
      specialize (IH k Hk). lia. }
  destruct (reg !! _) eqn:E; [|done].
  specialize (H _ (mk_is_Some _ _ E)). lia.
Qed.

Lemma tracked_swap (reg R : gmap Z lua_value) (r e : Z)
    (dv ev : option lua_value) :
  tracked reg R r dv e ev -> tracked reg R e ev r dv.
Proof.
  intros (Hr & He & Hne & Hrest).
  split; [done|]. split; [done|]. split.
  - intros H1 H2 Heq. by apply (Hne H2 H1).
  - intros k H1 H2. by apply Hrest.
Qed.

Lemma tracked_release (reg R : gmap Z lua_value) (r e : Z)
    (dv ev : option lua_value) :
  tracked reg R r dv e ev ->
  tracked reg (unref_if_set R r) LUA_NOREF None e ev.
Proof.
  intros (Hr & He & Hne & Hrest). unfold unref_if_set, luaL_unref.
  destruct dv as [f|]; simpl in Hr.
  - destruct Hr as (Hpos & Hfree & Hf).
    replace (r =? LUA_NOREF) with false by (unfold LUA_NOREF; lia).
    replace (0 <=? r) with true by lia.
    split; [done|]. split; [|split].
    + destruct ev as [w|]; [|done]. destruct He as (? & ? & Hw).
      split; [done|]. split; [done|].
      rw lookup_delete_ne; [|done].
      apply Hne; by eexists.
    + by intros [? [=]].
    + intros k _ Hk. destruct (decide (r = k)) as [<-|Hrk].
      * by rw lookup_delete_eq.
      * rw lookup_delete_ne; [done|]. apply Hrest; [|done].
        intros _ ->. done.
  - rw Hr. simpl. split; [done|]. split; [done|].
    split; [by intros [? [=]]|].
    intros k _ Hk. apply Hrest; [by intros [? [=]]|done].
Qed.

Lemma tracked_take (reg R : gmap Z lua_value) (e : Z)
    (ev : option lua_value) (f : lua_value) :
  tracked reg R LUA_NOREF None e ev ->
  tracked reg (<[fresh_ref R := f]> R) (fresh_ref R) (Some f) e ev.
Proof.
  intros (_ & He & _ & Hrest).
  pose proof (fresh_ref_unused R) as Hfresh.
  pose proof (fresh_ref_pos R) as Hpos.
  assert (Hne : is_Some ev -> fresh_ref R <> e).
  { intros [w ->] Heq. destruct He as (_ & _ & Hw).
    rw -Heq Hfresh in Hw. done. }
  split; [|split; [|split]].
  - split; [done|]. split; [|by rw lookup_insert_eq].
    rw -Hrest; [by intros [? [=]]|done|done].
  - destruct ev as [w|]; [|done]. destruct He as (? & ? & Hw).
    split; [done|]. split; [done|].
    rw lookup_insert_ne; [|done]. apply Hne. by eexists.
  - intros _. done.
  - intros k Hk1 Hk2. rw lookup_insert_ne.
    + intros Heq. apply Hk1; [by eexists|done].
    + apply Hrest; [by intros [? [=]]|done].
Qed.

Lemma register_error_exact (m : machine) (c : serial_input_cfg)
    (args : list lua_value) (fn_idx : Z) :
  obj m = Some c ->
  (fn_idx <> -1 ->
   lua_isfunction (lua_arg args (Z.to_nat fn_idx)) = true) ->
  register_error m args fn_idx =
    Returns
      (if fn_idx =? -1 then
         {| registry := unref_if_set (registry m) (error_ref c);
            invoked := invoked m;
            obj := Some (set_error_ref LUA_NOREF c) |}
       else
         {| registry :=
              <[fresh_ref (unref_if_set (registry m) (error_ref c))
                := lua_arg args (Z.to_nat fn_idx)]>
                (unref_if_set (registry m) (error_ref c));
            invoked := invoked m;
            obj :=
              Some
                (set_error_ref
                   (fresh_ref (unref_if_set (registry m) (error_ref c)))
                   c) |}).
Proof.
  intros Hobj Hfn. unfold register_error, with_cfg, unref_if_set.
  rw Hobj.
  destruct (Z.eqb_spec fn_idx (-1)) as [->|Hidx]; simpl.
  - destruct (Z.eqb_spec (error_ref c) LUA_NOREF) as [He|He]; simpl;
      [|done].
    do 2 f_equal. destruct c; simpl in *; by subst.
  - specialize (Hfn Hidx).
    destruct (lua_arg args (Z.to_nat fn_idx)) as [| |?|f]; try done.
    by destruct (Z.eqb_spec (error_ref c) LUA_NOREF).
Qed.

Lemma policy_of_refs (a2 : lua_value) (c : serial_input_cfg) :
  receive_ref (policy_of a2 c) = receive_ref c
  /\ error_ref (policy_of a2 c) = error_ref c.
Proof. by destruct a2. Qed.

Lemma asks_other (target : string) (args : list lua_value)
    (method : list Z) :
  lua_arg args 1 = LString method ->
  c_str method <> chars target ->
  asks target args = None.
Proof.
  intros Harg Hne. unfold asks.
  by rw Harg (bool_decide_eq_false_2 _ Hne).
Qed.

Lemma asks_method (target : string) (args : list lua_value)
    (method : list Z) :
  lua_arg args 1 = LString method ->
  c_str method = chars target ->
  single_byte_marker (lua_arg args 2) ->
  asks target args
  = Some (if fn_index args =? -1 then None
          else Some (lua_arg args (Z.to_nat (fn_index args)))).
Proof.
  intros Harg Heq Hmark. unfold asks.
  rw Harg (bool_decide_eq_true_2 _ Heq).
  destruct (lua_arg args 2) as [| |e|]; try done.
  simpl. by rw (bool_decide_eq_true_2 _ (Hmark e eq_refl)).
Qed.

Lemma asks_refused (target : string) (args : list lua_value)
    (e : list Z) :
  lua_arg args 2 = LString e ->
  length e <> 1%nat ->
  asks target args = None.
Proof.
  intros He Hlen. unfold asks. destruct (lua_arg args 1); try done.
  rw He. simpl. rw (bool_decide_eq_false_2 _ Hlen).
  by destruct (bool_decide _).
Qed.

(** One call of [serial_input_register]: the references follow what the
    call asks, the rest of the registry stays. *)
Lemma register_tracks (reg : gmap Z lua_value) (m : machine)
    (c : serial_input_cfg) (dv ev : option lua_value)
    (args : list lua_value) (realloc_ok : bool) :
  obj m = Some c ->
  tracked reg (registry m) (receive_ref c) dv (error_ref c) ev ->
  exists (m' : machine) (c' : serial_input_cfg),
    ends_in (serial_input_register m args realloc_ok) m'
    /\ obj m' = Some c'
    /\ invoked m' = invoked m
    /\ tracked reg (registry m') (receive_ref c')
         (default dv (asks "data" args))
         (error_ref c') (default ev (asks "error" args)).
Proof.
  intros Hobj Htr.
  assert (Hstay : forall msg,
    asks "data" args = None -> asks "error" args = None ->
    exists (m' : machine) (c' : serial_input_cfg),
      ends_in (Raises msg m) m'
      /\ obj m' = Some c'
      /\ invoked m' = invoked m
      /\ tracked reg (registry m') (receive_ref c')
           (default dv (asks "data" args))
           (error_ref c') (default ev (asks "error" args))).
  { intros msg -> ->. exists m, c. split; [right; by exists msg|done]. }
  destruct (lua_arg args 1) as [|n|method|f] eqn:Harg;
    try (unfold serial_input_register; rw Harg; apply Hstay;
         unfold asks; by rw Harg).
  destruct (marker_cases (lua_arg args 2)) as [Hmark|(e & He & Hlen)].
  2:{ rw (register_bad_marker _ _ _ _ _ Harg He Hlen).
      destruct (negb _ && negb _);
        apply Hstay; by apply (asks_refused _ _ e). }
  pose proof (policy_of_refs (lua_arg args 2) c) as [Hr He].
  assert (Hfn : fn_index args <> -1 ->
                lua_isfunction (lua_arg args (Z.to_nat (fn_index args)))
                = true) by apply fn_index_function.
  destruct (decide (c_str method = chars "data")) as [Hdata|Hdata].
  - assert (Hnot : c_str method <> chars "error") by by rw Hdata.
    rw (asks_method "data" _ _ Harg Hdata Hmark).
    rw (asks_other "error" _ _ Harg Hnot). simpl.
    rw (register_data_method _ _ _ _ realloc_ok Hobj Harg Hdata Hmark).
    set (c1 := policy_of (lua_arg args 2) c) in *.
    assert (Hobj1 : obj (set_obj c1 m) = Some c1) by done.
    assert (Hrel : released (set_obj c1 m) c1
                   = unref_if_set (registry m) (receive_ref c)).
    { unfold released, unref_if_set. by rw Hr. }
    destruct (Z.eqb_spec (fn_index args) (-1)) as [Hidx|Hidx].
    + rw Hidx (register_data_nothing _ _ args realloc_ok Hobj1) Hrel.
      eexists _, _. split; [by left|]. split; [done|]. split; [done|].
      simpl. rw He. by apply (tracked_release _ _ _ _ dv).
    + pose proof (register_data_function _ _ args _ realloc_ok Hobj1 Hidx
                    (Hfn Hidx)) as Hreg.
      simpl in Hreg. rw Hrel in Hreg. rw Hreg.
      assert (Htake :
        tracked reg
          (<[fresh_ref (unref_if_set (registry m) (receive_ref c))
             := lua_arg args (Z.to_nat (fn_index args))]>
             (unref_if_set (registry m) (receive_ref c)))
          (fresh_ref (unref_if_set (registry m) (receive_ref c)))
          (Some (lua_arg args (Z.to_nat (fn_index args))))
          (error_ref c) ev)
        by by apply tracked_take, (tracked_release _ _ _ _ dv).
      destruct (line_buffer_size c1 <? required_size c1);
        [destruct (realloc _ _ _)|];
        eexists _, _;
        (split; [first [by left | right; by eexists]|]);
        (split; [done|]); (split; [done|]); simpl; by rw He.
  - destruct (decide (c_str method = chars "error")) as [Herror|Herror].
    2:{ unfold serial_input_register.
        rw Harg (bool_decide_eq_false_2 _ Hdata)
           (bool_decide_eq_false_2 _ Herror). simpl.
        apply Hstay; by apply (asks_other _ _ method). }
    rw (asks_other "data" _ _ Harg Hdata).
    rw (asks_method "error" _ _ Harg Herror Hmark).
    unfold serial_input_register.
    rw Harg (bool_decide_eq_false_2 _ Hdata)
       (bool_decide_eq_true_2 _ Herror)
       (parse_policy_returns _ _ _ Hobj Hmark). cbn [negb andb].
    set (c1 := policy_of (lua_arg args 2) c) in *.
    assert (Hobj1 : obj (set_obj c1 m) = Some c1) by done.
    rw (register_error_exact _ _ args _ Hobj1 Hfn). simpl. rw He.
    apply tracked_swap in Htr.
    destruct (Z.eqb_spec (fn_index args) (-1)) as [Hidx|Hidx];
      eexists _, _; (split; [by left|]); (split; [done|]);
      (split; [done|]); simpl; rw Hr; apply tracked_swap.
    + by apply (tracked_release _ _ _ _ ev).
    + by apply tracked_take, (tracked_release _ _ _ _ ev).
Qed.

(** A sequence of calls. *)
Lemma register_calls_track (reg : gmap Z lua_value)
    (calls : list (list lua_value * bool)) :
  forall (m : machine) (c : serial_input_cfg) (dv ev : option lua_value),
    obj m = Some c ->
    tracked reg (registry m) (receive_ref c) dv (error_ref c) ev ->
    exists (m' : machine) (c' : serial_input_cfg),
      register_calls m calls = Returns m'
      /\ obj m' = Some c'
      /\ invoked m' = invoked m
      /\ tracked reg (registry m') (receive_ref c')
           (foldl (fun cur call => default cur (asks "data" call.1))
              dv calls)
           (error_ref c')
           (foldl (fun cur call => default cur (asks "error" call.1))
              ev calls).
Proof.
  induction calls as [|[args ok] calls IH]; intros m c dv ev Hobj Htr.
  - by exists m, c.
  - destruct (register_tracks reg m c dv ev args ok Hobj Htr)
      as (m1 & c1 & Hend & Hobj1 & Hlog1 & Htr1).
    destruct (IH m1 c1 _ _ Hobj1 Htr1) as (m' & c' & Hrun & H' & Hlog & Ht).
    exists m', c'. simpl.
    split; [by destruct Hend as [->|[msg ->]]|].
    split; [done|]. split; [by rw Hlog|done].
Qed.

Lemma tracked_new (reg : gmap Z lua_value) :
  tracked reg reg LUA_NOREF None LUA_NOREF None.
Proof.
  split; [done|]. split; [done|]. split; [by intros [? [=]]|done].
Qed.

Lemma held_bound (reg : gmap Z lua_value) (m : machine) (ref : Z)
    (v : option lua_value) :
  held reg (registry m) ref v -> bound m ref = v.
Proof.
  unfold bound, lua_rawgeti. destruct v as [f|]; simpl.
  - intros (Hpos & _ & Hf).
    by replace (ref =? LUA_NOREF) with false by (unfold LUA_NOREF; lia).
  - by intros ->.
Qed.

End RegistryFacts.

Module FeedFacts.

Import CInt CIntFacts Serial SerialTerms SerialFacts FeedTerms.

Lemma feed_loop_app (e mw : Z) (a b : list Z) : forall m : machine,
  feed_loop e mw (a ++ b) m
  = match feed_loop e mw a m with
    | Returns m' => feed_loop e mw b m'
    | other => other
    end.
Proof.
  induction a as [|ch a IH]; intros m; simpl; [done|].
  destruct (obj m) as [c|]; [|done].
  destruct (line_buffer c) as [bytes|]; [|done].
  destruct (store bytes (line_position c) ch); [|done].
  destruct (_ || _); apply IH.
Qed.

Lemma same_setup_refl (c : serial_input_cfg) : same_setup c c.
Proof. by repeat split. Qed.

Lemma same_setup_trans (c1 c2 c3 : serial_input_cfg) :
  same_setup c1 c2 -> same_setup c2 c3 -> same_setup c1 c3.
Proof.
  intros (?&?&?&?&?&?) (?&?&?&?&?&?).
  repeat split; congruence.
Qed.

Lemma same_setup_max_wanted (c c' : serial_input_cfg) :
  same_setup c c' -> max_wanted_of c' = max_wanted_of c.
Proof.
  intros (_&_&Hn&He&Hs&_). unfold max_wanted_of. by rw Hn He Hs.
Qed.

(** What the loop leaves alone: the registry, both references, the frame
    policy and the buffer's size; and whom it calls. *)
Lemma feed_loop_keeps (e mw : Z) (input : list Z) :
  forall (m m' : machine) (c : serial_input_cfg),
    obj m = Some c ->
    feed_loop e mw input m = Returns m' ->
    exists (c' : serial_input_cfg) (new : list invocation),
      obj m' = Some c'
      /\ same_setup c c'
      /\ registry m' = registry m
      /\ invoked m' = invoked m ++ new
      /\ Forall (fun i => inv_ref i = receive_ref c
                          /\ inv_fn i = registry m !! receive_ref c
                          /\ seen_position i = Some 0) new.
Proof.
  induction input as [|ch input IH]; intros m m' c Hobj Hrun.
  - injection Hrun as <-. exists c, [].
    split; [done|]. split; [apply same_setup_refl|].
    split; [done|]. split; [by rw app_nil_r|done].
  - simpl in Hrun. rw Hobj in Hrun.
    destruct (line_buffer c) as [bytes|] eqn:Hbuf; [|done].
    destruct (store bytes (line_position c) ch) as [bytes'|] eqn:Hstore;
      [|done].
    assert (Hlen : length bytes' = length bytes).
    { unfold store in Hstore. destruct (_ && _); [|done].
      injection Hstore as <-. by rw length_insert. }
    match type of Hrun with
    | (if ?cond then _ else _) = _ => destruct cond
    end.
    + unfold serial_input_dispatch_data, serial_input_invoke in Hrun.
      simpl in Hrun.
      match type of Hrun with
      | context [if ?cond then _ else _] => destruct cond
      end; simpl in Hrun;
        match type of Hrun with
        | feed_loop _ _ _ ?m1 = _ =>
            destruct (IH m1 m' _ eq_refl Hrun)
              as (c' & new & Hobj' & Hsame & Hreg & Hlog & Hnew)
        end; simpl in *.
      * exists c', new. split; [done|]. split; [|done].
        refine (same_setup_trans _ _ _ _ Hsame).
        repeat split; simpl; try done. by rw Hbuf /= Hlen.
      * exists c'. eexists (_ :: new). split; [done|]. split.
        { refine (same_setup_trans _ _ _ _ Hsame).
          repeat split; simpl; try done. by rw Hbuf /= Hlen. }
        split; [done|]. split; [by rw Hlog -app_assoc|].
        constructor; [|done]. done.
    + match type of Hrun with
      | feed_loop _ _ _ ?m1 = _ =>
          destruct (IH m1 m' _ eq_refl Hrun)
            as (c' & new & Hobj' & Hsame & Hreg & Hlog & Hnew)
      end; simpl in *.
      exists c', new. split; [done|]. split; [|done].
      refine (same_setup_trans _ _ _ _ Hsame).
      repeat split; simpl; try done. by rw Hbuf /= Hlen.
Qed.

Lemma feed_loop_no_error (e mw : Z) (input : list Z) :
  forall (m m' : machine) (msg : string),
    feed_loop e mw input m <> Raises msg m'.
Proof.
  induction input as [|ch input IH]; intros m m' msg; simpl; [done|].
  destruct (obj m) as [c|]; [|done].
  destruct (line_buffer c) as [bytes|]; [|done].
  destruct (store bytes (line_position c) ch); [|done].
  destruct (_ || _); apply IH.
Qed.

Lemma feed_data_no_error (m m' : machine) (buf : option (list Z))
    (msg : string) :
  serial_input_feed_data m buf <> Raises msg m'.
Proof.
  unfold serial_input_feed_data.
  destruct (obj m) as [c|]; [|done].
  destruct buf as [bytes|]; [|done].
  destruct (line_buffer c); [|done].
  destruct bytes; [done|]. apply feed_loop_no_error.
Qed.

Lemma feed_data_nil (m : machine) :
  serial_input_feed_data m (Some []) = Returns m.
Proof.
  unfold serial_input_feed_data.
  destruct (obj m) as [c|]; [|done]. by destruct (line_buffer c).
Qed.

(** Feeding [a ++ b] is feeding [a] and then [b]. *)
Lemma feed_data_app (m : machine) (a b : list Z) :
  serial_input_feed_data m (Some (a ++ b))
  = match serial_input_feed_data m (Some a) with
    | Returns m' => serial_input_feed_data m' (Some b)
    | other => other
    end.
Proof.
  destruct a as [|x a]; [by rw feed_data_nil|].
  unfold serial_input_feed_data at 1 2.
  destruct (obj m) as [c|] eqn:Hobj;
    [|unfold serial_input_feed_data; by rw Hobj].
  destruct (line_buffer c) as [bytes|] eqn:Hbuf;
    [|unfold serial_input_feed_data; by rw Hobj Hbuf].
  change ((x :: a) ++ b) with (x :: (a ++ b)).
  change (x :: (a ++ b)) with ((x :: a) ++ b).
  rw feed_loop_app.
  destruct (feed_loop (end_char c) (max_wanted_of c) (x :: a) m)
    as [m1| |] eqn:Hrun; [|done..].
  destruct (feed_loop_keeps _ _ _ _ _ _ Hobj Hrun)
    as (c1 & new & Hobj1 & Hsame & _).
  unfold serial_input_feed_data.
  rw Hobj1 (same_setup_max_wanted _ _ Hsame).
  destruct Hsame as (_&_&_&->&_&Hl). rw Hbuf in Hl.
  destruct (line_buffer c1); [|done]. by destruct b.
Qed.

End FeedFacts.

Module CalleeFacts.

Import CInt CIntFacts Serial Framing FramingFacts SerialTerms SerialFacts.
Import RegistrationTerms RegistryFacts Callee CalleeTerms.

(** *** A callee that makes no call: the functions are those of [Serial] *)

Lemma quiet_invoke (lua : lua_program) (m : machine) (ref : Z)
    (buf : option (list Z)) (len : Z) :
  quiet lua ->
  Callee.serial_input_invoke lua m ref buf len
  = Returns (Serial.serial_input_invoke m ref buf len).
Proof.
  intros Hq. unfold Callee.serial_input_invoke, luaL_pcallx.
  destruct (Serial.serial_input_invoke m ref buf len) as [[|] m1];
    [|done].
  simpl. by rw Hq.
Qed.

Lemma quiet_dispatch_data (lua : lua_program) (m : machine)
    (buf : option (list Z)) (len : Z) :
  quiet lua ->
  Callee.serial_input_dispatch_data lua m buf len
  = Returns (Serial.serial_input_dispatch_data m buf len).
Proof.
  intros Hq.
  unfold Callee.serial_input_dispatch_data,
    Serial.serial_input_dispatch_data.
  destruct (obj m); [by apply quiet_invoke|done].
Qed.

Lemma quiet_report_error (lua : lua_program) (m : machine)
    (buf : option (list Z)) (len : Z) :
  quiet lua ->
  Callee.serial_input_report_error lua m buf len
  = Returns (Serial.serial_input_report_error m buf len).
Proof.
  intros Hq.
  unfold Callee.serial_input_report_error,
    Serial.serial_input_report_error.
  destruct (obj m); [by apply quiet_invoke|done].
Qed.

Lemma quiet_feed_loop (lua : lua_program) (e mw : Z) (input : list Z) :
  quiet lua ->
  forall m : machine,
    Callee.feed_loop lua e mw input m = Serial.feed_loop e mw input m.
Proof.
  intros Hq. induction input as [|ch input IH]; intros m; simpl; [done|].
  destruct (obj m) as [c|]; [|done].
  destruct (line_buffer c) as [bytes|]; [|done].
  destruct (store bytes (line_position c) ch) as [bytes'|]; [|done].
  destruct (_ || _); [|apply IH].
  rw quiet_dispatch_data; [done|].
  destruct (Serial.serial_input_dispatch_data _ _ _) as [called m2].
  apply IH.
Qed.

Lemma quiet_feed_data (lua : lua_program) (m : machine)
    (buf : option (list Z)) :
  quiet lua ->
  Callee.serial_input_feed_data lua m buf
  = Serial.serial_input_feed_data m buf.
Proof.
  intros Hq.
  unfold Callee.serial_input_feed_data, Serial.serial_input_feed_data.
  destruct (obj m) as [c|]; [|done].
  destruct buf as [bytes|]; [|done].
  destruct (line_buffer c); [|done].
  destruct bytes; [done|]. by apply quiet_feed_loop.
Qed.

Lemma quiet_perform_all (lua : lua_program) (ops : list operation) :
  quiet lua ->
  forall m : machine,
    Callee.perform_all lua m ops = Serial.perform_all m ops.
Proof.
  intros Hq. induction ops as [|o ops IH]; intros m; simpl; [done|].
  destruct o as [args ok|buf]; simpl.
  - destruct (serial_input_register m args ok);
      [apply IH|apply IH|done].
  - rw quiet_feed_data; [done|].
    destruct (Serial.serial_input_feed_data m buf);
      [apply IH|apply IH|done].
Qed.

(** *** A callee that keeps the buffer *)





End CalleeFacts.

(** ** Framing, with the callee running *)

Module FeedClaims.

Import CInt CIntFacts Serial Framing FramingFacts SerialTerms
  Scenarios SerialFacts.
Import RegistrationTerms RegistryFacts Callee CalleeTerms CalleeFacts.



(** C1, where the code breaks it.  The stream is registered for frames
    of 4 bytes with a data callback that unregisters the data callback
    when it is called: it calls [on("data")].  Fed "ABCD", the feed hands
    the frame over and returns; the callee has had the line buffer freed
    and [NULL] put in its place.  Fed "ABCDEFGH", the loop goes on after
    the first frame and stores "E" through that [NULL]: "EFGH" is never
    dispatched. *)
Theorem fixed_length_feed_after_unregister :
  (exists m' : machine,
     Callee.serial_input_feed_data unregisters fixed4_machine
       (Some (chars "ABCD")) = Returns m'
     /\ inv_data <$> invoked m' = [chars "ABCD"]
     /\ line_buffer <$> obj m' = Some None)
  /\ Callee.serial_input_feed_data unregisters fixed4_machine
       (Some (chars "ABCDEFGH")) = Crashes NullDeref.
Proof.
  split; [|reflexivity].
  eexists. split; [reflexivity|]. split; reflexivity.
Qed.



(** C2, where the code breaks it.  The stream is registered for the end
    character "\n" with a data callback that unregisters the data
    callback when it is called.  Fed "ab\n", the feed hands the frame
    over and returns; the callee has had the line buffer freed and [NULL]
    put in its place.  Fed "ab\ncd", the loop goes on after the frame and
    stores "c" through that [NULL]: "cd" is not left buffered. *)
Theorem delimited_feed_after_unregister :
  (exists m' : machine,
     Callee.serial_input_feed_data unregisters newline_machine
       (Some [97; 98; 10]) = Returns m'
     /\ inv_data <$> invoked m' = [[97; 98; 10]]
     /\ line_buffer <$> obj m' = Some None)
  /\ Callee.serial_input_feed_data unregisters newline_machine
       (Some [97; 98; 10; 99; 100]) = Crashes NullDeref.
Proof.
  split; [|reflexivity].
  eexists. split; [reflexivity|]. split; reflexivity.
Qed.



(** C10, where the code breaks it.  [on("data", 0, f)] on a new stream is
    accepted and leaves [need_len] = 0, [end_char] = -1 and a buffer of
    255 bytes; [f] unregisters the data callback when it is called.  Fed
    "a", the feed hands "a" over and returns; the callee has had the line
    buffer freed and [NULL] put in its place.  Fed "ab", the loop goes on
    after the first frame and stores "b" through that [NULL]: "b" is not
    dispatched. *)
Theorem zero_length_feed_after_unregister :
  exists (m1 : machine) (c1 : serial_input_cfg),
    serial_input_register fresh_machine
      [LString (chars "data"); LNumber 0; LFunction 7%nat] true
    = Returns m1
    /\ obj m1 = Some c1
    /\ need_len c1 = 0
    /\ end_char c1 = -1
    /\ length <$> line_buffer c1 = Some 255%nat
    /\ (exists m2 : machine,
          Callee.serial_input_feed_data unregisters m1 (Some (chars "a"))
          = Returns m2
          /\ inv_data <$> invoked m2 = [chars "a"]
          /\ line_buffer <$> obj m2 = Some None)
    /\ Callee.serial_input_feed_data unregisters m1 (Some (chars "ab"))
       = Crashes NullDeref.
Proof.
  eexists _, _. split; [reflexivity|]. split; [reflexivity|].
  do 3 (split; [reflexivity|]).
  split; [|reflexivity].
  eexists. split; [reflexivity|]. split; reflexivity.
Qed.

End FeedClaims.

Module StreamProperties.

Import CInt CIntFacts Serial SerialTerms Scenarios SerialFacts.
Import RegistrationTerms RegistryFacts FeedTerms FeedFacts.
Import CalleeTerms CalleeFacts.

(** X1. An error [serial_input_register] raises for its arguments is
    raised before anything is changed.  Whatever the call raises, unless it
    is "out of mem", it is one of three errors (the first argument is no
    string; the method is neither "data" nor "error"; the end marker is
    not one byte long), and the registry, the calls made into Lua and the
    stream object are as before the call. *)
Theorem argument_error_changes_nothing (m m' : machine)
    (args : list lua_value) (realloc_ok : bool) (msg : string) :
  serial_input_register m args realloc_ok = Raises msg m' ->
  msg <> "out of mem" ->
  m' = m
  /\ (msg = "bad argument #1 (string expected)"
      \/ msg = "method not supported"
      \/ msg = "only single byte end marker supported")%string.
Proof.
  intros Hrun Hmsg. unfold serial_input_register in Hrun.
  destruct (lua_arg args 1) as [|n|method|f];
    try (injection Hrun as <- <-; split; [done|]; by [left|right; left]).
  destruct (negb _ && negb _);
    [injection Hrun as <- <-; split; [done|]; by right; left|].
  destruct (parse_policy m args) as [[m1 idx]|msg1 [m1 idx]|flt] eqn:Hp;
    [| |done].
  - exfalso.
    destruct (bool_decide (c_str method = chars "data")).
    + unfold register_data, with_cfg in Hrun.
      destruct (obj m1) as [c1|]; [|done].
      destruct (negb (receive_ref c1 =? LUA_NOREF)); simpl in Hrun;
        destruct (negb (idx =? -1)); try done;
        destruct (luaL_ref _ _) as [ref reg2];
        match type of Hrun with
        | (if ?cond then _ else _) = _ => destruct cond; [|done]
        end;
        destruct (realloc _ _ _); [done| |done|];
        injection Hrun as <- _; done.
    + unfold register_error, with_cfg in Hrun.
      destruct (obj m1) as [c1|]; [|done].
      destruct (negb (error_ref c1 =? LUA_NOREF)); simpl in Hrun;
        destruct (negb (idx =? -1)); try done;
        by destruct (luaL_ref _ _).
  - injection Hrun as <- <-. unfold parse_policy, with_cfg in Hp.
    destruct (lua_isnumber (lua_arg args 2)).
    { destruct (obj m); [|done]. by destruct (_ && _). }
    destruct (lua_isstring (lua_arg args 2)).
    { destruct (bool_decide _).
      - destruct (obj m); [|done]. by destruct (_ && _).
      - injection Hp as <- <-. split; [done|]. by right; right. }
    destruct (lua_isfunction (lua_arg args 2)); [done|].
    by destruct (_ && _).
Qed.

Lemma argument_error_changes_nothing_witness :
  machine_after
    (serial_input_register fixed4_ab_machine
       [LString (chars "data"); LString [13; 10]; LFunction 8%nat]
       true)
    fresh_machine
  = fixed4_ab_machine
  /\ ("only single byte end marker supported"
      = "bad argument #1 (string expected)"
      \/ "only single byte end marker supported" = "method not supported"
      \/ "only single byte end marker supported"
         = "only single byte end marker supported")%string.
Proof.
  apply (argument_error_changes_nothing fixed4_ab_machine _
           [LString (chars "data"); LString [13; 10];
            LFunction 8%nat] true
           "only single byte end marker supported").
  - reflexivity.
  - discriminate.
Defined.

(** X2. However the input is cut into pieces, feeding the pieces one
    after the other is feeding them joined: the outcome, the frames handed
    to the data callback and the stream left behind are the same, so a
    client that feeds byte by byte (the console) and one that feeds
    batches (the uart driver) get the same frames.  (Callbacks are
    observers here: they do not call back into the module.) *)
Theorem feed_in_pieces (m : machine) (pieces : list (list Z)) :
  perform_all m (feeds pieces)
  = serial_input_feed_data m (Some (concat pieces)).
Proof.
  revert m. induction pieces as [|piece pieces IH]; intros m.
  - by rw feed_data_nil.
  - simpl. rw feed_data_app.
    destruct (serial_input_feed_data m (Some piece)) as [m1|msg m1|flt]
      eqn:Hfeed; [apply IH| |done].
    by apply feed_data_no_error in Hfeed.
Qed.

(** X3. As long as the data callback makes no call into the module while
    it runs, a feed that returns has changed nothing but the bytes of the
    line buffer and the cursor: the registry, both callback references,
    the frame policy and the buffer's size are as before, and every call
    it made into Lua went to the data callback, with the cursor already
    back at 0.  (A callback that calls [on] changes the registration, as
    it is meant to.) *)
Theorem feed_keeps_registration (lua : Callee.lua_program)
    (m m' : machine) (buf : option (list Z)) :
  quiet lua ->
  Callee.serial_input_feed_data lua m buf = Returns m' ->
  registry m' = registry m
  /\ match obj m, obj m' with
     | Some c, Some c' => same_setup c c'
     | None, None => True
     | _, _ => False
     end
  /\ (exists new : list invocation,
        invoked m' = invoked m ++ new
        /\ Forall (fun i => Some (inv_ref i) = receive_ref <$> obj m
                            /\ inv_fn i
                               = lua_rawgeti (registry m) (inv_ref i)
                            /\ seen_position i = Some 0) new).
Proof.
  intros Hquiet Hrun. rw (quiet_feed_data lua m buf Hquiet) in Hrun.
  assert (Hsame : forall m0 : machine,
    registry m0 = registry m0
    /\ match obj m0, obj m0 with
       | Some c, Some c' => same_setup c c'
       | None, None => True
       | _, _ => False
       end
    /\ (exists new : list invocation,
          invoked m0 = invoked m0 ++ new
          /\ Forall (fun i => Some (inv_ref i) = receive_ref <$> obj m0
                              /\ inv_fn i
                                 = lua_rawgeti (registry m0) (inv_ref i)
                              /\ seen_position i = Some 0) new)).
  { intros m0. split; [done|]. split.
    - destruct (obj m0); [apply same_setup_refl|done].
    - exists []. by rw app_nil_r. }
  assert (Hstay : m' = m ->
    registry m' = registry m
    /\ match obj m, obj m' with
       | Some c, Some c' => same_setup c c'
       | None, None => True
       | _, _ => False
       end
    /\ (exists new : list invocation,
          invoked m' = invoked m ++ new
          /\ Forall (fun i => Some (inv_ref i) = receive_ref <$> obj m
                              /\ inv_fn i
                                 = lua_rawgeti (registry m) (inv_ref i)
                              /\ seen_position i = Some 0) new)).
  { intros ->. apply Hsame. }
  unfold serial_input_feed_data in Hrun.
  destruct (obj m) as [c|] eqn:Hobj; [|apply Hstay; by injection Hrun].
  destruct buf as [bytes|]; [|apply Hstay; by injection Hrun].
  destruct (line_buffer c) eqn:Hbuf; [|apply Hstay; by injection Hrun].
  destruct bytes as [|ch bytes]; [apply Hstay; by injection Hrun|].
  destruct (feed_loop_keeps _ _ _ _ _ _ Hobj Hrun)
    as (c' & new & Hobj' & Hsetup & Hreg & Hlog & Hnew).
  split; [done|]. split; [by rw Hobj'|].
  exists new. split; [done|].
  eapply Forall_impl; [exact Hnew|].
  intros i (Hi & Hfn & Hseen). simpl. by rw Hi.
Qed.

Lemma feed_keeps_registration_witness :
  registry fixed4_ab_machine = registry fixed4_machine
  /\ match obj fixed4_machine, obj fixed4_ab_machine with
     | Some c, Some c' => same_setup c c'
     | None, None => True
     | _, _ => False
     end
  /\ (exists new : list invocation,
        invoked fixed4_ab_machine = invoked fixed4_machine ++ new
        /\ Forall (fun i => Some (inv_ref i)
                            = receive_ref <$> obj fixed4_machine
                            /\ inv_fn i
                               = lua_rawgeti (registry fixed4_machine)
                                   (inv_ref i)
                            /\ seen_position i = Some 0) new).
Proof.
  apply (feed_keeps_registration consumes fixed4_machine
           fixed4_ab_machine (Some (chars "ab"))).
  - intros log. reflexivity.
  - reflexivity.
Defined.

(** X4. On a stream made by [serial_input_new], after any sequence of
    [serial_input_register] calls with any arguments (argument errors and
    failed allocations included), each callback is the one the last call
    that got past the argument checks asked for: the data reference names
    the function of the last accepted "data" call, or is [LUA_NOREF] if
    that call gave none, and likewise the error reference;
    [serial_input_has_data_cb] answers accordingly; the two references
    never name the same registry slot; and every other slot of the
    registry is as it was before the first call. *)
Theorem last_registration_wins (reg : gmap Z lua_value)
    (log : list invocation) (calls : list (list lua_value * bool)) :
  exists (m' : machine) (c' : serial_input_cfg),
    register_calls
      {| registry := reg; invoked := log; obj := serial_input_new true |}
      calls = Returns m'
    /\ obj m' = Some c'
    /\ bound m' (receive_ref c') = callback_after "data" calls
    /\ bound m' (error_ref c') = callback_after "error" calls
    /\ serial_input_has_data_cb m'
       = bool_decide (is_Some (callback_after "data" calls))
    /\ (receive_ref c' = error_ref c' -> receive_ref c' = LUA_NOREF)
    /\ (forall k : Z,
          k <> receive_ref c' -> k <> error_ref c' ->
          registry m' !! k = reg !! k)
    /\ invoked m' = log.
Proof.
  destruct (register_calls_track reg calls
              {| registry := reg; invoked := log;
                 obj := serial_input_new true |}
              _ None None eq_refl (tracked_new reg))
    as (m' & c' & Hrun & Hobj & Hlog & Hr & He & Hne & Hrest).
  exists m', c'. split; [done|]. split; [done|].
  split; [by apply (held_bound reg)|].
  split; [by apply (held_bound reg)|].
  fold (callback_after "data" calls) in Hr, Hne, Hrest.
  fold (callback_after "error" calls) in He, Hne, Hrest.
  split; [|split; [|split; [|done]]].
  - unfold serial_input_has_data_cb. rw Hobj.
    destruct (callback_after "data" calls) as [f|]; simpl in Hr.
    + destruct Hr as (Hpos & _).
      rw bool_decide_eq_true_2; [by eexists|].
      unfold LUA_NOREF. destruct (Z.eqb_spec (receive_ref c') (-2)); [lia|done].
    + rw Hr. rw bool_decide_eq_false_2; [by intros [? [=]]|done].
  - intros Heq.
    destruct (callback_after "data" calls) as [f|]; [|done].
    destruct (callback_after "error" calls) as [g|].
    + by destruct Hne; [eexists|eexists|].
    + simpl in He. by rw Heq.
  - intros k Hk1 Hk2. by apply Hrest.
Qed.

(** X5. [serial_input_free] gives back what the registrations took: on a
    stream made by [serial_input_new], after any sequence of
    [serial_input_register] calls, freeing the stream leaves the registry
    exactly as it was before the first call; no reference stays behind,
    whichever calls raised errors. *)
Theorem free_releases_references (reg : gmap Z lua_value)
    (log : list invocation) (calls : list (list lua_value * bool)) :
  exists m' : machine,
    register_calls
      {| registry := reg; invoked := log; obj := serial_input_new true |}
      calls = Returns m'
    /\ serial_input_free m'
       = Returns {| registry := reg; invoked := log; obj := None |}.
Proof.
  destruct (register_calls_track reg calls
              {| registry := reg; invoked := log;
                 obj := serial_input_new true |}
              _ None None eq_refl (tracked_new reg))
    as (m' & c' & Hrun & Hobj & Hlog & Htr).
  exists m'. split; [done|].
  unfold serial_input_free. rw Hobj. simpl in Hlog. rw Hlog.
  do 2 f_equal.
  apply tracked_release, tracked_swap, tracked_release in Htr.
  destruct Htr as (_ & _ & _ & Hrest).
  apply map_eq. intros k.
  rw -(Hrest k); [by intros [? [=]]..|].
  unfold unref_if_set.
  by destruct (receive_ref c' =? LUA_NOREF), (error_ref c' =? LUA_NOREF).
Qed.

(** X6. Registering and reporting an error.  [on("error", f)], with or
    without a number or a one-byte end marker in between, returns and
    leaves the data side of the stream (data callback, line buffer, its
    size, the cursor) and the calls made so far untouched.  From then on
    [serial_input_report_error] with a message of non-zero length calls
    [f], once, with the first [len] bytes of the message, and answers
    true; after [on("error")] without a function it calls nothing and
    answers false. *)
Theorem error_callback_round_trip (m : machine) (c : serial_input_cfg)
    (args : list lua_value) (method msg : list Z) (realloc_ok : bool)
    (len : Z) :
  obj m = Some c ->
  lua_arg args 1 = LString method ->
  c_str method = chars "error" ->
  single_byte_marker (lua_arg args 2) ->
  len <> 0 ->
  exists (m' : machine) (c' : serial_input_cfg),
    serial_input_register m args realloc_ok = Returns m'
    /\ obj m' = Some c'
    /\ invoked m' = invoked m
    /\ receive_ref c' = receive_ref c
    /\ line_buffer c' = line_buffer c
    /\ line_buffer_size c' = line_buffer_size c
    /\ line_position c' = line_position c
    /\ serial_input_report_error m' (Some msg) len
       = if fn_index args =? -1 then (false, m')
         else
           (true,
            log_call
              {| inv_ref := error_ref c';
                 inv_fn := Some (lua_arg args (Z.to_nat (fn_index args)));
                 inv_data := take (Z.to_nat len) msg;
                 seen_position := Some (line_position c) |} m').
Proof.
  intros Hobj Harg Herror Hmark Hlen.
  assert (Hdata : c_str method <> chars "data") by by rw Herror.
  unfold serial_input_register.
  rw Harg (bool_decide_eq_false_2 _ Hdata)
     (bool_decide_eq_true_2 _ Herror)
     (parse_policy_returns _ _ _ Hobj Hmark). cbn [negb andb].
  set (c1 := policy_of (lua_arg args 2) c).
  assert (Hobj1 : obj (set_obj c1 m) = Some c1) by done.
  rw (register_error_exact _ _ args _ Hobj1 (fn_index_function args)).
  destruct (policy_of_data_side (lua_arg args 2) c)
    as (Hr & Hb & Hs & Hp & _).
  fold c1 in Hr, Hb, Hs, Hp.
  destruct (Z.eqb_spec (fn_index args) (-1)) as [Hidx|Hidx];
    eexists _, _; (split; [done|]); (split; [done|]);
    (split; [done|]); (split; [exact Hr|]); (split; [exact Hb|]);
    (split; [exact Hs|]); (split; [exact Hp|]);
    unfold serial_input_report_error, serial_input_invoke; simpl.
  - done.
  - pose proof (fresh_ref_pos (unref_if_set (registry m) (error_ref c1)))
      as Hpos.
    replace (fresh_ref (unref_if_set (registry m) (error_ref c1))
             =? LUA_NOREF) with false by (unfold LUA_NOREF; lia).
    replace (len =? 0) with false by lia. simpl.
    unfold lua_rawgeti. simpl. by rw lookup_insert_eq Hp.
Qed.

Lemma error_callback_round_trip_witness :
  exists (m' : machine) (c' : serial_input_cfg),
    serial_input_register fixed4_ab_machine
      [LString (chars "error"); LFunction 9%nat] true = Returns m'
    /\ obj m' = Some c'
    /\ invoked m' = invoked fixed4_ab_machine
    /\ receive_ref c' = 1
    /\ line_buffer c' = Some [97; 98; 0; 0]
    /\ line_buffer_size c' = 4
    /\ line_position c' = 2
    /\ serial_input_report_error m' (Some (chars "overrun")) 7
       = (true,
          log_call
            {| inv_ref := error_ref c';
               inv_fn := Some (LFunction 9%nat);
               inv_data := chars "overrun";
               seen_position := Some 2 |} m').
Proof.
  apply (error_callback_round_trip fixed4_ab_machine
           {| receive_ref := 1; error_ref := LUA_NOREF;
              line_buffer := Some [97; 98; 0; 0];
              line_buffer_size := 4; line_position := 2;
              need_len := 4; end_char := -1 |}
           [LString (chars "error"); LFunction 9%nat]
           (chars "error") (chars "overrun") true 7).
  - reflexivity.
  - reflexivity.
  - reflexivity.
  - intros e He. discriminate He.
  - lia.
Defined.

(** X7. On a stream made by [serial_input_new], whatever the registry
    held before, and as long as the callbacks make no call into the module
    while they run, any sequence of feeds and registrations in which no
    allocation fails and no "error" registration carries a number or an
    end marker runs to its end without a store outside the line buffer,
    and leaves the stream consistent: the recorded size is the size of the
    allocation, the cursor is strictly inside it, the frame bound fits in
    it and a data callback is registered, or else there is no buffer, the
    size and the cursor are 0 and no data callback is registered.  Every
    call made into Lua found the cursor back at 0. *)
Theorem plain_calls_keep_stream_consistent (lua : Callee.lua_program)
    (reg : gmap Z lua_value) (ops : list operation) :
  quiet lua ->
  Forall plain ops ->
  exists (m' : machine) (c' : serial_input_cfg),
    Callee.perform_all lua
      {| registry := reg; invoked := []; obj := serial_input_new true |}
      ops = Returns m'
    /\ obj m' = Some c'
    /\ consistent c'
    /\ Forall (fun i => seen_position i = Some 0) (invoked m').
Proof.
  intros Hquiet Hops. rw (quiet_perform_all lua ops Hquiet).
  assert (Hall : forall (m : machine) (c : serial_input_cfg),
    obj m = Some c ->
    consistent c ->
    Forall (fun i => seen_position i = Some 0) (invoked m) ->
    exists (m' : machine) (c' : serial_input_cfg),
      perform_all m ops = Returns m'
      /\ obj m' = Some c'
      /\ consistent c'
      /\ Forall (fun i => seen_position i = Some 0) (invoked m')).
  { induction Hops as [|o ops Ho Hops IH]; intros m c Hobj Hc Hseen.
    - by exists m, c.
    - destruct o as [args ok|buf]; simpl.
      + destruct Ho as [-> Hplain].
        destruct (register_consistent m c args Hobj Hc)
          as (m1 & c1 & Hend & Hobj1 & Hc1 & Hlog); [by split|].
        destruct (IH m1 c1 Hobj1 Hc1) as (m' & c' & Hrun & H');
          [by rw Hlog|].
        exists m', c'. split; [|done].
        by destruct Hend as [->|[msg ->]].
      + destruct (feed_data_consistent m c buf Hobj Hc Hseen)
          as (m1 & c1 & -> & Hobj1 & Hc1 & Hseen1).
        by apply (IH m1 c1). }
  apply (Hall {| registry := reg; invoked := [];
                 obj := serial_input_new true |}
           {| receive_ref := LUA_NOREF; error_ref := LUA_NOREF;
              line_buffer := None; line_buffer_size := 0;
              line_position := 0; need_len := 0;
              end_char := int16_t (-1) |}); [done|by split|done].
Qed.

Lemma plain_calls_keep_stream_consistent_witness :
  exists (m' : machine) (c' : serial_input_cfg),
    Callee.perform_all consumes
      {| registry := ∅; invoked := []; obj := serial_input_new true |}
      [OnCall [LString (chars "data"); LNumber 4; LFunction 7%nat] true;
       FeedCall (Some (chars "abcdef"));
       OnCall [LString (chars "data"); LNumber 1; LFunction 8%nat] true;
       FeedCall (Some (chars "g"))]
      = Returns m'
    /\ obj m' = Some c'
    /\ consistent c'
    /\ Forall (fun i => seen_position i = Some 0) (invoked m').
Proof.
  apply (plain_calls_keep_stream_consistent consumes ∅).
  - intros log. reflexivity.
  - repeat constructor; intros method [= <-]; discriminate.
Defined.

(** X18. Registering a data callback and reaching it.  Once
    [on("data", f)], with or without a number or a one-byte end marker in
    between, has ended, by return or by "out of mem",
    [serial_input_has_data_cb] answers true; and as long as [f] makes no
    call into the module while it runs, [serial_input_dispatch_data] with
    data of non-zero length calls [f], once, with the first [len] bytes,
    answers true and leaves the stream as it is, and whatever a feed that
    returns has dispatched afterwards, it dispatched to [f]. *)
Theorem data_callback_round_trip (lua : Callee.lua_program)
    (m : machine) (c : serial_input_cfg)
    (args : list lua_value) (method buf : list Z) (realloc_ok : bool)
    (len : Z) :
  quiet lua ->
  obj m = Some c ->
  lua_arg args 1 = LString method ->
  c_str method = chars "data" ->
  single_byte_marker (lua_arg args 2) ->
  fn_index args <> -1 ->
  len <> 0 ->
  exists (m' : machine) (c' : serial_input_cfg),
    ends_in (serial_input_register m args realloc_ok) m'
    /\ obj m' = Some c'
    /\ serial_input_has_data_cb m' = true
    /\ Callee.serial_input_dispatch_data lua m' (Some buf) len
       = Returns
           (true,
            log_call
              {| inv_ref := receive_ref c';
                 inv_fn := Some (lua_arg args (Z.to_nat (fn_index args)));
                 inv_data := take (Z.to_nat len) buf;
                 seen_position := Some (line_position c') |} m')
    /\ forall (input : list Z) (m'' : machine),
         Callee.serial_input_feed_data lua m' (Some input) = Returns m'' ->
         exists new : list invocation,
           invoked m'' = invoked m' ++ new
           /\ Forall (fun i => inv_fn i
                               = Some (lua_arg args
                                         (Z.to_nat (fn_index args)))) new.
Proof.
  intros Hquiet Hobj Harg Hdata Hmark Hidx Hlen.
  set (c1 := policy_of (lua_arg args 2) c).
  set (fn := lua_arg args (Z.to_nat (fn_index args))).
  set (ref := fresh_ref (released (set_obj c1 m) c1)).
  assert (Hreg : exists (m' : machine) (c' : serial_input_cfg),
    ends_in (serial_input_register m args realloc_ok) m'
    /\ obj m' = Some c'
    /\ receive_ref c' = ref
    /\ registry m' = <[ref := fn]> (released (set_obj c1 m) c1)).
  { rw (register_data_method _ _ _ _ realloc_ok Hobj Harg Hdata Hmark).
    pose proof (register_data_function (set_obj c1 m) c1 args _ realloc_ok
                  eq_refl Hidx (fn_index_function args Hidx)) as Hrun.
    simpl in Hrun. rw Hrun.
    destruct (line_buffer_size c1 <? required_size c1);
      [destruct (realloc _ _ _)|];
      eexists _, _;
      (split; [first [by left | right; by eexists]|]); done. }
  destruct Hreg as (m' & c' & Hend & Hobj' & Href & Hbound).
  assert (Hset : (ref =? LUA_NOREF) = false).
  { pose proof (fresh_ref_pos (released (set_obj c1 m) c1)).
    subst ref. unfold LUA_NOREF. lia. }
  assert (Hfn : lua_rawgeti (registry m') (receive_ref c') = Some fn).
  { unfold lua_rawgeti. by rw Hbound Href lookup_insert_eq. }
  exists m', c'. split; [done|]. split; [done|].
  split; [|split].
  - unfold serial_input_has_data_cb. by rw Hobj' Href Hset.
  - rw (quiet_dispatch_data lua m' (Some buf) len Hquiet).
    unfold serial_input_dispatch_data, serial_input_invoke.
    rw Hobj' Hfn Href Hset.
    by replace (len =? 0) with false by lia.
  - intros input m'' Hfeed.
    rw (quiet_feed_data lua m' (Some input) Hquiet) in Hfeed.
    unfold serial_input_feed_data in Hfeed.
    rw Hobj' in Hfeed.
    destruct (line_buffer c');
      [|injection Hfeed as <-; exists []; by rw app_nil_r].
    destruct input as [|ch input];
      [injection Hfeed as <-; exists []; by rw app_nil_r|].
    destruct (feed_loop_keeps _ _ _ _ _ _ Hobj' Hfeed)
      as (c'' & new & _ & _ & _ & Hlog & Hnew).
    exists new. split; [done|].
    eapply Forall_impl; [exact Hnew|].
    intros i (_ & Hi & _). by rw Hi.
Qed.

Lemma data_callback_round_trip_witness :
  exists (m' : machine) (c' : serial_input_cfg),
    ends_in
      (serial_input_register fixed4_ab_machine
         [LString (chars "data"); LNumber 1000; LFunction 8%nat] false)
      m'
    /\ obj m' = Some c'
    /\ serial_input_has_data_cb m' = true
    /\ Callee.serial_input_dispatch_data consumes m' (Some (chars "xyz")) 2
       = Returns
           (true,
            log_call
              {| inv_ref := receive_ref c';
                 inv_fn := Some (LFunction 8%nat);
                 inv_data := chars "xy";
                 seen_position := Some (line_position c') |} m')
    /\ forall (input : list Z) (m'' : machine),
         Callee.serial_input_feed_data consumes m' (Some input)
         = Returns m'' ->
         exists new : list invocation,
           invoked m'' = invoked m' ++ new
           /\ Forall (fun i => inv_fn i = Some (LFunction 8%nat)) new.
Proof.
  apply (data_callback_round_trip consumes fixed4_ab_machine
           {| receive_ref := 1; error_ref := LUA_NOREF;
              line_buffer := Some [97; 98; 0; 0];
              line_buffer_size := 4; line_position := 2;
              need_len := 4; end_char := -1 |}
           [LString (chars "data"); LNumber 1000; LFunction 8%nat]
           (chars "data") (chars "xyz") false 2).
  - intros log. reflexivity.
  - reflexivity.
  - reflexivity.
  - reflexivity.
  - intros e He. discriminate He.
  - discriminate.
  - lia.
Defined.

End StreamProperties.

(** ** Further properties of the console module *)

Module ConsoleModuleFacts.

Import CInt CIntFacts Serial Console ConsoleTerms ConsoleFacts.
Import SerialTerms FeedTerms FeedFacts ConsoleModule ConsoleModuleTerms.
Import CalleeTerms CalleeFacts.

Lemma fwrites_app (a b : list stdio_call) :
  fwrites (a ++ b) = fwrites a ++ fwrites b.
Proof.
  induction a as [|call a IH]; [done|].
  destruct call; simpl; by rw IH.
Qed.

Lemma chunked_and_flushed_app (a b : list stdio_call) :
  chunked_and_flushed a -> chunked_and_flushed b ->
  chunked_and_flushed (a ++ b).
Proof.
  intros Ha Hb i bytes Hi.
  destruct (decide (i < length a)%nat) as [Hlt|Hge].
  - rw lookup_app_l in Hi; [done|].
    destruct (Ha i bytes Hi) as (Hlen & H1 & H2).
    split; [done|]. split; by apply lookup_app_l_Some.
  - rw lookup_app_r in Hi; [lia|].
    destruct (Hb _ bytes Hi) as (Hlen & H1 & H2).
    split; [done|].
    rw !lookup_app_r; [lia..|].
    replace (S i - length a)%nat with (S (i - length a)) by lia.
    replace (S (S i) - length a)%nat with (S (S (i - length a))) by lia.
    done.
Qed.

Lemma taken_nil (dev : device) : taken dev [] = [].
Proof. by destruct dev. Qed.

(** Whatever an obedient device answers, what it took is the payload
    from where the loop started up to where it stopped. *)
Lemma loop_no_loss (buf : list Z) (dev : device) :
  forall written : Z,
    obedient dev ->
    0 <= written <= Z.of_nat (length buf) ->
    Z.of_nat (length buf) <= SIZE_MAX ->
    exists reached : Z,
      ((retrying_write_loop dev buf (Z.of_nat (length buf)) written).1
         = Written reached
       \/ (retrying_write_loop dev buf (Z.of_nat (length buf)) written).1
         = Unanswered reached)
      /\ written <= reached <= Z.of_nat (length buf)
      /\ taken dev
           (fwrites
              (retrying_write_loop dev buf (Z.of_nat (length buf))
                 written).2)
         = take (Z.to_nat (reached - written))
             (drop (Z.to_nat written) buf).
Proof.
  induction dev as [|reply dev IH]; intros written Hdev Hw Hmax; simpl.
  - exists written. rw Z.sub_diag.
    change (Z.to_nat 0) with 0%nat. simpl.
    split; [destruct (written <? Z.of_nat (length buf)); by [right|left]|].
    split; [lia|]. by destruct (written <? Z.of_nat (length buf)).
  - destruct (Z.ltb_spec written (Z.of_nat (length buf))) as [Hlt|Hge].
    2:{ exists written. rw Z.sub_diag.
        change (Z.to_nat 0) with 0%nat. simpl.
        split; [by left|]. split; [lia|done]. }
    pose proof (to_write_at_pos (Z.of_nat (length buf)) written
                  ltac:(lia) Hmax) as Hpos.
    set (to_write := to_write_at (Z.of_nat (length buf)) written) in *.
    apply Forall_cons in Hdev as [Hreply Hdev].
    specialize (Hreply to_write ltac:(lia)).
    set (n := fwrite_returns (reply to_write)) in *.
    assert (Hchunk :
      Z.of_nat (length (take (Z.to_nat to_write)
                          (drop (Z.to_nat written) buf))) = to_write).
    { rw length_take length_drop. lia. }
    destruct (Z.ltb_spec 0 n) as [Hn|Hn].
    + rw size_t_small; [unfold SIZE_MAX in *; lia|].
      destruct (IH (written + n) Hdev ltac:(lia) Hmax)
        as (reached & Hres & Hreach & Htaken).
      exists reached. split; [done|]. split; [lia|].
      simpl. rw Hchunk. fold n. rw Htaken.
      rw take_take.
      replace (Z.to_nat n `min` Z.to_nat to_write)%nat
        with (Z.to_nat n) by lia.
      replace (Z.to_nat (written + n))
        with (Z.to_nat written + Z.to_nat n)%nat by lia.
      rw -drop_drop take_take_drop. f_equal. lia.
    + assert (n = 0) as Hn0 by lia.
      destruct (ferror_after (reply to_write)).
      * exists written. rw Z.sub_diag.
        change (Z.to_nat 0) with 0%nat. simpl.
        split; [by left|]. split; [lia|].
        rw Hchunk. fold n. rw Hn0. simpl. by rw taken_nil.
      * destruct (IH written Hdev Hw Hmax)
          as (reached & Hres & Hreach & Htaken).
        exists reached. split; [done|]. split; [done|].
        simpl. rw Hchunk. fold n. by rw Hn0.
Qed.

(** A device that takes all it is offered has answers left for what is
    left to write. *)
Lemma answers_left_takes_all (len : Z) (k : nat) :
  forall written : Z,
    0 <= written <= len ->
    len <= SIZE_MAX ->
    len - written <= Z.of_nat k ->
    exists k' : nat,
      answers_left (replicate k takes_all) len written
      = replicate k' takes_all
      /\ Z.of_nat k - (len - written) <= Z.of_nat k'.
Proof.
  induction k as [|k IH]; intros written Hw Hmax Hk; simpl.
  - exists 0%nat. split; [by destruct (written <? len)|lia].
  - destruct (Z.ltb_spec written len) as [Hlt|Hge].
    + pose proof (to_write_at_pos len written ltac:(lia) Hmax) as Hpos.
      replace (0 <? to_write_at len written) with true by lia.
      rw size_t_small; [unfold SIZE_MAX in *; lia|].
      destruct (IH (written + to_write_at len written))
        as (k' & Hleft & Hk'); [lia|done|lia|].
      exists k'. split; [done|lia].
    + exists (S k). split; [done|lia].
Qed.

Lemma writable_string (s : list Z) :
  Z.of_nat (length s) <= SIZE_MAX ->
  forall k : nat,
    Z.of_nat (length s) <= Z.of_nat k ->
    exists (count : Z) (calls : list stdio_call) (k' : nat),
      retrying_write (replicate k takes_all) s = (Written count, calls)
      /\ concat (fwrites calls) = s
      /\ answers_left (replicate k takes_all) (Z.of_nat (length s)) 0
         = replicate k' takes_all
      /\ Z.of_nat k - Z.of_nat (length s) <= Z.of_nat k'.
Proof.
  intros Hmax k Hk.
  destruct (loop_takes_all s k 0) as [Hres Hcat];
    [lia|done|unfold MAX_LEN; lia|].
  destruct (answers_left_takes_all (Z.of_nat (length s)) k 0)
    as (k' & Hleft & Hk'); [lia|done|lia|].
  unfold retrying_write.
  destruct (retrying_write_loop _ _ _ _) as [res calls]; simpl in *.
  subst res. exists (int (Z.of_nat (length s))), calls, k'.
  split; [done|]. split; [done|]. split; [done|lia].
Qed.

Lemma console_write_chunked (args : list write_arg) :
  forall dev : device, chunked_and_flushed (console_write dev args).2.
Proof.
  induction args as [|a args IH]; intros dev;
    [apply chunked_and_flushed_nil|].
  assert (Hstep : forall s : list Z,
    chunked_and_flushed
      (write_then dev s (fun dev' => console_write dev' args)).2).
  { intros s. unfold write_then, retrying_write. simpl.
    pose proof (loop_chunked_and_flushed dev s (Z.of_nat (length s)) 0)
      as Hloop.
    destruct (retrying_write_loop _ _ _ _) as [[count|w] calls];
      simpl in *; [|done].
    by apply chunked_and_flushed_app. }
  destruct a as [s|v|]; simpl; [done| |done].
  destruct (_ || _); [apply chunked_and_flushed_nil|done].
Qed.

(** What [console_feed_all] does to the switch and to the Lua input,
    whatever the callee does. *)
Lemma console_feed_all_input (char_signed : bool)
    (lua : Callee.lua_program) (posted : list Z) :
  forall k k' : console,
    console_feed_all char_signed lua k posted = Returns k' ->
    run_input k' = run_input k
    /\ lua_input k'
       = lua_input k
         ++ (if run_input k then char char_signed <$> posted else []).
Proof.
  induction posted as [|param posted IH]; intros k k' Hrun.
  - injection Hrun as <-. split; [done|].
    by destruct (run_input k); rw app_nil_r.
  - cbn [console_feed_all] in Hrun. unfold console_feed_lua in Hrun.
    destruct (if serial_input_has_data_cb (cb_cfg k)
              then Callee.serial_input_feed_data lua (cb_cfg k)
                     (Some [char char_signed param])
              else Returns (cb_cfg k)) as [m1|msg m1|flt];
      [| |done]; apply IH in Hrun as [-> ->]; simpl;
      (split; [done|]); destruct (run_input k);
      by rw ?fmap_cons -?app_assoc.
Qed.

(** With a callee that makes no call, the task runs are one feed. *)
Lemma console_feed_all_relayed (char_signed : bool)
    (lua : Callee.lua_program) (posted : list Z) :
  quiet lua ->
  forall k : console,
    serial_input_has_data_cb (cb_cfg k) = true ->
    console_feed_all char_signed lua k posted
    = match serial_input_feed_data (cb_cfg k)
              (Some (char char_signed <$> posted)) with
      | Returns m' | Raises _ m' =>
          Returns (relayed k m' (char char_signed <$> posted))
      | Crashes f => Crashes f
      end.
Proof.
  intros Hquiet.
  induction posted as [|param posted IH]; intros k Hcb.
  - rw fmap_nil feed_data_nil. simpl. unfold relayed.
    destruct k as [run m input calls]. simpl.
    by destruct run; rw !app_nil_r.
  - rw fmap_cons.
    change (char char_signed param :: (char char_signed <$> posted))
      with ([char char_signed param] ++ (char char_signed <$> posted)).
    rw feed_data_app. cbn [console_feed_all]. unfold console_feed_lua.
    rw Hcb (quiet_feed_data lua _ _ Hquiet).
    destruct (serial_input_feed_data (cb_cfg k)
                (Some [char char_signed param]))
      as [m1|msg m1|flt] eqn:Hfeed; [| |done].
    2:{ by apply feed_data_no_error in Hfeed. }
    assert (Hcb1 : serial_input_has_data_cb m1 = true).
    { unfold serial_input_has_data_cb in Hcb |- *.
      unfold serial_input_feed_data in Hfeed.
      destruct (obj (cb_cfg k)) as [c0|] eqn:Hobj; [|done].
      destruct (line_buffer c0); [|by injection Hfeed as <-; rw Hobj].
      destruct (feed_loop_keeps _ _ _ _ _ _ Hobj Hfeed)
        as (c' & new & -> & (-> & _) & _). done. }
    rw IH; [done|]. simpl.
    destruct (serial_input_feed_data m1
                (Some (char char_signed <$> posted)))
      as [m2|msg m2|flt];
      [| |done]; unfold relayed; simpl;
      destruct (run_input k); by rw -?app_assoc.
Qed.

Lemma console_feed_all_unheard (char_signed : bool)
    (lua : Callee.lua_program) (posted : list Z) :
  forall k : console,
    serial_input_has_data_cb (cb_cfg k) = false ->
    console_feed_all char_signed lua k posted
    = Returns (relayed k (cb_cfg k) (char char_signed <$> posted)).
Proof.
  induction posted as [|param posted IH]; intros k Hcb.
  - simpl. unfold relayed. destruct k as [run m input calls]. simpl.
    by destruct run; rw !app_nil_r.
  - cbn [console_feed_all]. unfold console_feed_lua. rw Hcb. rw IH; [done|].
    unfold relayed. simpl. destruct (run_input k); by rw -?app_assoc.
Qed.

End ConsoleModuleFacts.

Module ConsoleProperties.

Import CInt CIntFacts Serial Console ConsoleTerms ConsoleFacts.
Import SerialTerms Scenarios FeedTerms FeedFacts.
Import ConsoleModule ConsoleModuleTerms ConsoleModuleFacts.
Import CalleeTerms CalleeFacts.

(** X8. [retrying_write] loses and repeats nothing.  Whatever a device
    that keeps to [fwrite]'s contract answers (partial writes, refusals
    for now, a hard error), in whatever order, the bytes it took, all
    attempts together, are exactly the first [written] bytes of the
    payload, [written] being the count the function returns, and that
    count is never more than the payload's length. *)
Theorem retrying_write_loses_nothing (dev : device) (buf : list Z) :
  obedient dev ->
  Z.of_nat (length buf) < 2 ^ 31 ->
  exists written : Z,
    ((retrying_write dev buf).1 = Written written
     \/ (retrying_write dev buf).1 = Unanswered written)
    /\ 0 <= written <= Z.of_nat (length buf)
    /\ taken dev (fwrites (retrying_write dev buf).2)
       = take (Z.to_nat written) buf.
Proof.
  intros Hdev Hlen.
  destruct (loop_no_loss buf dev 0 Hdev ltac:(lia)
              ltac:(unfold SIZE_MAX; lia))
    as (reached & Hres & Hreach & Htaken).
  exists reached. unfold retrying_write. simpl.
  split; [|split; [lia|]].
  - destruct Hres as [-> | ->]; [left|by right].
    f_equal. unfold int. rw Z.mod_small; lia.
  - rw Htaken. by rw Z.sub_0_r.
Qed.

Lemma retrying_write_loses_nothing_witness :
  exists written : Z,
    ((retrying_write
        [(fun offered =>
            {| fwrite_returns := Z.min 3 offered; ferror_after := false |});
         busy; failed]
        (chars "hello")).1 = Written written
     \/ (retrying_write
           [(fun offered =>
               {| fwrite_returns := Z.min 3 offered;
                  ferror_after := false |});
            busy; failed]
           (chars "hello")).1 = Unanswered written)
    /\ 0 <= written <= Z.of_nat (length (chars "hello"))
    /\ taken
         [(fun offered =>
             {| fwrite_returns := Z.min 3 offered; ferror_after := false |});
          busy; failed]
         (fwrites
            (retrying_write
               [(fun offered =>
                   {| fwrite_returns := Z.min 3 offered;
                      ferror_after := false |});
                busy; failed]
               (chars "hello")).2)
       = take (Z.to_nat written) (chars "hello").
Proof.
  apply (retrying_write_loses_nothing
           [(fun offered =>
               {| fwrite_returns := Z.min 3 offered;
                  ferror_after := false |});
            busy; failed]
           (chars "hello")).
  - repeat constructor; simpl; lia.
  - simpl. lia.
Defined.

(** X9. [console.write] on a device that takes all it is offered: the
    strings and the numbers within 0..255 go out in the order of the
    arguments, a number as the one byte of that value, arguments that are
    neither string nor number are passed over without error, the call
    returns, and what was written, chunk after chunk, is the arguments'
    bytes joined. *)
Theorem console_write_writes_all (args : list write_arg) (k : nat) :
  Forall writable args ->
  Z.of_nat (length (payload args)) <= Z.of_nat k ->
  (console_write (replicate k takes_all) args).1 = CallReturns
  /\ concat (fwrites (console_write (replicate k takes_all) args).2)
     = payload args.
Proof.
  revert k. induction args as [|a args IH]; intros k Hargs Hk; [done|].
  apply Forall_cons in Hargs as [Ha Hargs].
  change (payload (a :: args)) with (bytes_of a ++ payload args) in Hk.
  rw length_app in Hk.
  assert (Hstep : forall s : list Z,
    bytes_of a = s ->
    Z.of_nat (length s) <= SIZE_MAX ->
    (write_then (replicate k takes_all) s
       (fun dev' => console_write dev' args)).1 = CallReturns
    /\ concat
         (fwrites
            (write_then (replicate k takes_all) s
               (fun dev' => console_write dev' args)).2)
       = s ++ payload args).
  { intros s Hs Hmax. rw Hs in Hk.
    destruct (writable_string s Hmax k ltac:(lia))
      as (count & calls & k' & Hrun & Hcat & Hleft & Hk').
    destruct (IH k' Hargs ltac:(lia)) as [Hres Hrest].
    unfold write_then. rw Hrun Hleft. simpl.
    split; [done|]. by rw fwrites_app concat_app Hcat Hrest. }
  destruct a as [s|v|]; simpl in Ha |- *.
  - by apply Hstep.
  - replace ((int v <? 0) || (255 <? int v)) with false by lia.
    apply (Hstep [int v]); [done|]. unfold SIZE_MAX. simpl. lia.
  - apply IH; [done|]. simpl in Hk. lia.
Qed.

Lemma console_write_writes_all_witness :
  (console_write (replicate 4 takes_all)
     [WString (chars "ab"); WNumber 10; WOther; WString (chars "c")]).1
  = CallReturns
  /\ concat
       (fwrites
          (console_write (replicate 4 takes_all)
             [WString (chars "ab"); WNumber 10; WOther;
              WString (chars "c")]).2)
     = [97; 98; 10; 99].
Proof.
  apply (console_write_writes_all
           [WString (chars "ab"); WNumber 10; WOther; WString (chars "c")]
           4).
  - repeat constructor; by vm_compute.
  - simpl. lia.
Defined.

(** X10. A number outside 0..255 among the arguments of [console.write]
    raises "invalid number" only when the loop reaches it: the arguments
    before it have been written by then, exactly as a call with those
    arguments alone writes them, and the arguments after it are not
    written. *)
Theorem console_write_invalid_number (dev : device)
    (before after : list write_arg) (v : Z) :
  int v < 0 \/ 255 < int v ->
  console_write dev (before ++ WNumber v :: after)
  = match console_write dev before with
    | (CallReturns, calls) => (CallRaises "invalid number", calls)
    | other => other
    end.
Proof.
  intros Hv. revert dev.
  induction before as [|a before IH]; intros dev.
  - simpl. by replace ((int v <? 0) || (255 <? int v)) with true by lia.
  - assert (Hstep : forall s : list Z,
      write_then dev s
        (fun dev' => console_write dev' (before ++ WNumber v :: after))
      = match write_then dev s (fun dev' => console_write dev' before)
        with
        | (CallReturns, calls) => (CallRaises "invalid number", calls)
        | other => other
        end).
    { intros s. unfold write_then.
      destruct (retrying_write dev s).1; [|done].
      rw IH. by destruct (console_write _ before) as [[| |] calls]. }
    destruct a as [s|n|]; simpl; [done| |done].
    destruct (_ || _); [done|apply Hstep].
Qed.

Lemma console_write_invalid_number_witness :
  console_write (replicate 2 takes_all)
    ([WString (chars "ok")] ++ WNumber 256 :: [WString (chars "never")])
  = (CallRaises "invalid number",
     [call_fwrite (chars "ok"); call_fflush; call_fsync]).
Proof.
  apply (console_write_invalid_number (replicate 2 takes_all)
           [WString (chars "ok")] [WString (chars "never")] 256).
  right. by vm_compute.
Defined.

(** X11. [console.write] reports nothing of what happens on the device.
    With arguments it accepts it never raises an error, whatever the
    device answers, a hard error included: the value [retrying_write]
    returns is not looked at, and the loop goes on to the next argument.
    Every [fwrite] of the call carries at most 255 bytes and is followed
    by [fflush] and [fsync]. *)
Theorem console_write_never_reports_device (dev : device)
    (args : list write_arg) :
  Forall writable args ->
  ((console_write dev args).1 = CallReturns
   \/ (console_write dev args).1 = CallUnanswered)
  /\ chunked_and_flushed (console_write dev args).2.
Proof.
  intros Hargs. split; [|apply console_write_chunked].
  revert dev. induction Hargs as [|a args Ha Hargs IH]; intros dev;
    [by left|].
  assert (Hstep : forall s : list Z,
    (write_then dev s (fun dev' => console_write dev' args)).1
    = CallReturns
    \/ (write_then dev s (fun dev' => console_write dev' args)).1
       = CallUnanswered).
  { intros s. unfold write_then.
    destruct (retrying_write dev s).1; [|by right]. by apply IH. }
  destruct a as [s|v|]; simpl in Ha |- *; [done| |by apply IH].
  by replace ((int v <? 0) || (255 <? int v)) with false by lia.
Qed.

Lemma console_write_never_reports_device_witness :
  ((console_write [failed; takes_all]
      [WString (chars "lost"); WNumber 33]).1 = CallReturns
   \/ (console_write [failed; takes_all]
         [WString (chars "lost"); WNumber 33]).1 = CallUnanswered)
  /\ chunked_and_flushed
       (console_write [failed; takes_all]
          [WString (chars "lost"); WNumber 33]).2.
Proof.
  apply (console_write_never_reports_device [failed; takes_all]
           [WString (chars "lost"); WNumber 33]).
  repeat constructor; by vm_compute.
Defined.

(** X12. The console's input task, run once per parameter posted, takes
    each parameter as a [char] and, as long as the data callback makes no
    call into the module while it runs, hands the stream the same input
    as one feed of all the bytes: if a data callback is registered the
    stream ends up as [serial_input_feed_data] on the whole sequence
    leaves it, with the same frames dispatched; if none is registered the
    stream is not touched.  Each byte also goes to the Lua input when, and
    only when, [run_input] is on, and each task run ends with a flush and
    a sync of [stdout]. *)
Theorem console_relays_like_one_feed (char_signed : bool)
    (lua : Callee.lua_program) (k : console) (posted : list Z) :
  quiet lua ->
  console_feed_all char_signed lua k posted
  = match (if serial_input_has_data_cb (cb_cfg k)
           then Callee.serial_input_feed_data lua (cb_cfg k)
                  (Some (char char_signed <$> posted))
           else Returns (cb_cfg k)) with
    | Returns m' | Raises _ m' =>
        Returns (relayed k m' (char char_signed <$> posted))
    | Crashes f => Crashes f
    end.
Proof.
  intros Hquiet.
  destruct (serial_input_has_data_cb (cb_cfg k)) eqn:Hcb.
  - rw (quiet_feed_data lua _ _ Hquiet).
    by apply console_feed_all_relayed.
  - by apply console_feed_all_unheard.
Qed.

Lemma console_relays_like_one_feed_witness :
  console_feed_all false consumes
    {| run_input := true; cb_cfg := newline_machine;
       lua_input := []; stdout_calls := [] |}
    [321; 98; 266; 99]
  = Returns
      {| run_input := true;
         cb_cfg :=
           {| registry := registry newline_machine;
              invoked :=
                [{| inv_ref := 1; inv_fn := Some (LFunction 7%nat);
                    inv_data := [65; 98; 10];
                    seen_position := Some 0 |}];
              obj :=
                Some {| receive_ref := 1; error_ref := LUA_NOREF;
                        line_buffer :=
                          Some ([99; 98; 10] ++ replicate 252 0);
                        line_buffer_size := 255; line_position := 1;
                        need_len := 0; end_char := 10 |} |};
         lua_input := [65; 98; 10; 99];
         stdout_calls :=
           [call_fflush; call_fsync; call_fflush; call_fsync;
            call_fflush; call_fsync; call_fflush; call_fsync] |}.
Proof.
  etrans.
  - apply (console_relays_like_one_feed false consumes
             {| run_input := true; cb_cfg := newline_machine;
                lua_input := []; stdout_calls := [] |}
             [321; 98; 266; 99]).
    intros log. reflexivity.
  - reflexivity.
Defined.

(** X13. [console.mode] sets the switch the input task reads:
    [NONINTERACTIVE] turns it off, and no byte posted afterwards reaches
    the Lua input; [INTERACTIVE] turns it on, and every parameter posted
    afterwards does, as a [char], in order; the stream behind [cb_cfg] is
    not touched.  Any other mode raises "invalid mode" and changes
    nothing.  The data callback may call [console.on] meanwhile;
    afterwards means until [console.mode] is called again. *)
Theorem console_mode_switches_input (char_signed : bool)
    (lua : Callee.lua_program) (k : console) (mode : Z) :
  match console_mode k mode with
  | Returns k' =>
      (mode = NONINTERACTIVE \/ mode = INTERACTIVE)
      /\ cb_cfg k' = cb_cfg k
      /\ stdout_calls k' = stdout_calls k
      /\ forall (posted : list Z) (k'' : console),
           console_feed_all char_signed lua k' posted = Returns k'' ->
           lua_input k''
           = lua_input k
             ++ (if bool_decide (mode = INTERACTIVE)
                 then char char_signed <$> posted else [])
  | Raises msg k' =>
      mode <> NONINTERACTIVE /\ mode <> INTERACTIVE
      /\ msg = "invalid mode"%string /\ k' = k
  | Crashes _ => False
  end.
Proof.
  unfold console_mode, NONINTERACTIVE, INTERACTIVE.
  destruct (Z.eqb_spec mode 0) as [->|H0].
  - split; [by left|]. split; [done|]. split; [done|].
    intros posted k'' Hrun.
    by apply console_feed_all_input in Hrun as [_ ->].
  - destruct (Z.eqb_spec mode 1) as [->|H1]; [|done].
    split; [by right|]. split; [done|]. split; [done|].
    intros posted k'' Hrun.
    by apply console_feed_all_input in Hrun as [_ ->].
Qed.

End ConsoleProperties.

(** ** Properties of the uart module *)

Module UartProperties.

Import CInt CIntFacts Serial SerialTerms FeedTerms FeedFacts.
Import ConsoleModule Uart UartTerms.
Import CalleeTerms CalleeFacts.

(** X14. [uart.write] sends its arguments in order and then flushes: with
    strings and numbers within 0..255 only, the call returns, the bytes
    put on the line are the arguments' bytes joined (a number being one
    byte of that value), every call goes to the uart [id], and the last
    call is the flush, the only one. *)
Theorem uart_write_sends_in_order (id : Z) (args : list write_arg) :
  Forall sendable args ->
  exists calls : list platform_call,
    uart_write_from id args [] = Returns (calls ++ [platform_uart_flush id])
    /\ calls = args ≫= send_of id
    /\ calls ≫= on_line = args ≫= line_bytes.
Proof.
  intros Hargs.
  assert (Hrun : forall sent : list platform_call,
    uart_write_from id args sent
    = Returns (sent ++ (args ≫= send_of id) ++ [platform_uart_flush id])).
  { induction Hargs as [|a args Ha Hargs IH]; intros sent; [done|].
    destruct a as [s|v|]; simpl in Ha |- *; [| |done].
    - by rw IH -app_assoc.
    - replace (255 <? size_t v) with false by lia.
      by rw IH -app_assoc. }
  exists (args ≫= send_of id). split; [by rw Hrun|]. split; [done|].
  clear Hrun. induction Hargs as [|a args Ha Hargs IH]; [done|].
  rw !bind_cons bind_app IH. f_equal.
  destruct a as [s|v|]; simpl in Ha |- *; [by rw app_nil_r| |done].
  f_equal. unfold uint8_t. rw Z.mod_small; [|done].
  unfold size_t in *. pose proof (Z.mod_pos_bound v (2 ^ 32)). lia.
Qed.

Lemma uart_write_sends_in_order_witness :
  exists calls : list platform_call,
    uart_write_from 1 [WString (chars "AT"); WNumber 13; WNumber 10] []
    = Returns (calls ++ [platform_uart_flush 1])
    /\ calls = [platform_uart_send_multi 1 [65; 84];
                platform_uart_send 1 13; platform_uart_send 1 10]
    /\ calls ≫= on_line = [65; 84; 13; 10].
Proof.
  apply (uart_write_sends_in_order 1
           [WString (chars "AT"); WNumber 13; WNumber 10]).
  repeat constructor; by vm_compute.
Defined.

(** X15. An argument [uart.write] refuses (a number that is above 255
    once read into a [size_t], which a negative number is; a value that
    is neither number nor string) raises a Lua error when the loop
    reaches it: the arguments before it have been sent by then, the ones
    after it are not, and the uart is not flushed. *)
Theorem uart_write_refusal_skips_flush (id : Z)
    (before after : list write_arg) (a : write_arg) :
  Forall sendable before ->
  ~ sendable a ->
  exists msg : string,
    uart_write_from id (before ++ a :: after) []
    = Raises msg (before ≫= send_of id)
    /\ (forall v : Z, a = WNumber v -> msg = "invalid number"%string)
    /\ platform_uart_flush id ∉ before ≫= send_of id.
Proof.
  intros Hbefore Ha.
  assert (Hrun : forall sent : list platform_call,
    exists msg : string,
      uart_write_from id (before ++ a :: after) sent
      = Raises msg (sent ++ (before ≫= send_of id))
      /\ (forall v : Z, a = WNumber v -> msg = "invalid number"%string)).
  { induction Hbefore as [|b before Hb Hbefore IH]; intros sent.
    - simpl. rw app_nil_r.
      destruct a as [s|v|]; simpl in Ha |- *; [done| |].
      + replace (255 <? size_t v) with true by lia. by eexists.
      + eexists. split; [done|]. by intros v [=].
    - destruct b as [s|v|]; simpl in Hb |- *; [| |done].
      + destruct (IH (sent ++ [platform_uart_send_multi id s]))
          as (msg & -> & Hmsg).
        exists msg. by rw -app_assoc.
      + replace (255 <? size_t v) with false by lia.
        destruct (IH (sent ++ [platform_uart_send id (uint8_t (size_t v))]))
          as (msg & -> & Hmsg).
        exists msg. by rw -app_assoc. }
  destruct (Hrun []) as (msg & -> & Hmsg).
  exists msg. split; [done|]. split; [done|].
  clear Hrun Hmsg. induction Hbefore as [|b before Hb Hbefore IH].
  - apply not_elem_of_nil.
  - rw bind_cons. rw not_elem_of_app. split; [|done].
    destruct b as [s|v|]; simpl;
      first [apply not_elem_of_nil
            |by intros [=]%list_elem_of_singleton].
Qed.

Lemma uart_write_refusal_skips_flush_witness :
  exists msg : string,
    uart_write_from 1
      ([WString (chars "AT")] ++ WNumber (-1) :: [WString (chars "Z")]) []
    = Raises msg ([WString (chars "AT")] ≫= send_of 1)
    /\ (forall v : Z, WNumber (-1) = WNumber v ->
        msg = "invalid number"%string)
    /\ platform_uart_flush 1 ∉ [WString (chars "AT")] ≫= send_of 1.
Proof.
  apply (uart_write_refusal_skips_flush 1 [WString (chars "AT")]
           [WString (chars "Z")] (WNumber (-1))).
  - repeat constructor.
  - by vm_compute.
Defined.

(** X16. [uart_feed_data] reaches one stream.  For an [id] the module
    has no uart for, it returns and nothing has happened.  Otherwise the
    bytes are fed to the stream of that uart and, as long as the data
    callback makes no call into the module while it runs: the call returns
    when, and only when, the feed does (a feed that stores through [NULL]
    or outside the buffer is the call doing so); the stream of that uart
    is then as the feed leaves it; the streams of the other uarts, the
    number of uarts and the registry are as before; and every call made
    into Lua went to the data callback registered for that uart. *)
Theorem uart_feed_reaches_one_stream (lua : Callee.lua_program)
    (u : uart_module) (id : nat) (buf : option (list Z)) :
  quiet lua ->
  (NUM_UART u <= Z.of_nat id ->
   UartCallee.uart_feed_data lua u id buf = Returns u)
  /\ (Z.of_nat id < NUM_UART u ->
      match Callee.serial_input_feed_data lua (uart_stream u id) buf with
      | Returns m' =>
          exists u' : uart_module,
            UartCallee.uart_feed_data lua u id buf = Returns u'
            /\ uart_stream u' id = m'
            /\ lua_registry u' = lua_registry u
            /\ NUM_UART u' = NUM_UART u
            /\ (forall j : nat, j <> id ->
                uart_cb_cfg u' !! j = uart_cb_cfg u !! j)
            /\ exists new : list invocation,
                 lua_invoked u' = lua_invoked u ++ new
                 /\ Forall (fun i => Some (inv_ref i)
                                     = receive_ref <$> obj (uart_stream u id)
                                     /\ inv_fn i
                                        = lua_rawgeti (lua_registry u)
                                            (inv_ref i))
                      new
      | Raises _ _ => False
      | Crashes f => UartCallee.uart_feed_data lua u id buf = Crashes f
      end).
Proof.
  intros Hquiet. unfold UartCallee.uart_feed_data.
  split; [intros Hout; by replace (NUM_UART u <=? Z.of_nat id) with true
                             by lia|].
  intros Hin. replace (NUM_UART u <=? Z.of_nat id) with false by lia.
  rw (quiet_feed_data lua _ buf Hquiet).
  destruct (serial_input_feed_data (uart_stream u id) buf)
    as [m'|msg m'|flt] eqn:Hfeed; [|by apply feed_data_no_error in Hfeed|done].
  exists (uart_stream_done u id m'). split; [done|].
  assert (Hkeeps :
    registry m' = lua_registry u
    /\ exists new : list invocation,
         invoked m' = lua_invoked u ++ new
         /\ Forall (fun i => Some (inv_ref i)
                             = receive_ref <$> obj (uart_stream u id)
                             /\ inv_fn i
                                = lua_rawgeti (lua_registry u) (inv_ref i))
              new).
  { assert (Hstay : m' = uart_stream u id ->
      registry m' = lua_registry u
      /\ exists new : list invocation,
           invoked m' = lua_invoked u ++ new
           /\ Forall (fun i => Some (inv_ref i)
                               = receive_ref <$> obj (uart_stream u id)
                               /\ inv_fn i
                                  = lua_rawgeti (lua_registry u)
                                      (inv_ref i))
                new).
    { intros ->. split; [done|]. exists []. by rw app_nil_r. }
    unfold serial_input_feed_data in Hfeed.
    destruct (obj (uart_stream u id)) as [c|] eqn:Hobj;
      [|apply Hstay; by injection Hfeed].
    destruct buf as [bytes|]; [|apply Hstay; by injection Hfeed].
    destruct (line_buffer c); [|apply Hstay; by injection Hfeed].
    destruct bytes as [|ch bytes]; [apply Hstay; by injection Hfeed|].
    destruct (feed_loop_keeps _ _ _ _ _ _ Hobj Hfeed)
      as (c' & new & _ & _ & Hreg & Hlog & Hnew).
    split; [done|]. exists new. split; [done|].
    eapply Forall_impl; [exact Hnew|].
    intros i (Hi & Hfn & _). simpl. by rw Hi. }
  destruct Hkeeps as (Hreg & Hnew).
  split.
  { unfold uart_stream, uart_stream_done. simpl.
    rw list_lookup_insert_eq; [unfold NUM_UART in Hin; lia|].
    by destruct m'. }
  split; [done|].
  split; [unfold NUM_UART; simpl; by rw length_insert|].
  split; [|done].
  intros j Hj. apply list_lookup_insert_ne. by intros ->.
Qed.

Lemma uart_feed_reaches_one_stream_witness :
  (NUM_UART two_uarts <= Z.of_nat 1 ->
   UartCallee.uart_feed_data consumes two_uarts 1 (Some (chars "abcdef"))
   = Returns two_uarts)
  /\ (Z.of_nat 1 < NUM_UART two_uarts ->
      match Callee.serial_input_feed_data consumes
              (uart_stream two_uarts 1) (Some (chars "abcdef")) with
      | Returns m' =>
          exists u' : uart_module,
            UartCallee.uart_feed_data consumes two_uarts 1
              (Some (chars "abcdef")) = Returns u'
            /\ uart_stream u' 1 = m'
            /\ lua_registry u' = lua_registry two_uarts
            /\ NUM_UART u' = NUM_UART two_uarts
            /\ (forall j : nat, j <> 1%nat ->
                uart_cb_cfg u' !! j = uart_cb_cfg two_uarts !! j)
            /\ exists new : list invocation,
                 lua_invoked u' = lua_invoked two_uarts ++ new
                 /\ Forall (fun i => Some (inv_ref i)
                                     = receive_ref
                                       <$> obj (uart_stream two_uarts 1)
                                     /\ inv_fn i
                                        = lua_rawgeti
                                            (lua_registry two_uarts)
                                            (inv_ref i))
                      new
      | Raises _ _ => False
      | Crashes f =>
          UartCallee.uart_feed_data consumes two_uarts 1
            (Some (chars "abcdef")) = Crashes f
      end).
Proof.
  apply (uart_feed_reaches_one_stream consumes two_uarts 1
           (Some (chars "abcdef"))).
  intros log. reflexivity.
Defined.

(** X17. [luaopen_uart] gives every uart a stream of its own, or raises
    "out of mem" at the first uart for which [serial_input_new] finds no
    memory.  When it returns, no uart has a data callback, and whatever is
    fed to whichever uart before a registration changes nothing and calls
    nothing. *)
Theorem luaopen_uart_streams_idle (reg : gmap Z lua_value)
    (callocs : list bool) :
  match luaopen_uart reg callocs with
  | Returns u =>
      Forall (fun ok => ok = true) callocs
      /\ uart_cb_cfg u
         = replicate (length callocs) (serial_input_new true)
      /\ forall (id : nat) (buf : option (list Z)),
           serial_input_has_data_cb (uart_stream u id) = false
           /\ uart_feed_data u id buf = Returns u
  | Raises msg u =>
      msg = "out of mem"%string
      /\ exists done_ : nat,
           callocs !! done_ = Some false
           /\ take done_ callocs = replicate done_ true
           /\ uart_cb_cfg u
              = replicate done_ (serial_input_new true)
                ++ replicate (length callocs - done_) None
  | Crashes _ => False
  end.
Proof.
  unfold luaopen_uart.
  destruct (serial_input_new true) as [c0|] eqn:Hnew; [|done].
  assert (Hloop : forall (rest : list bool) (done_ : nat)
                         (log : list invocation),
    match luaopen_uart_from
            {| lua_registry := reg; lua_invoked := log;
               uart_cb_cfg :=
                 replicate done_ (Some c0)
                 ++ replicate (length rest) None |}
            done_ rest with
    | Returns u =>
        Forall (fun ok => ok = true) rest
        /\ lua_registry u = reg /\ lua_invoked u = log
        /\ uart_cb_cfg u = replicate (done_ + length rest) (Some c0)
    | Raises msg u =>
        msg = "out of mem"%string
        /\ exists more : nat,
             rest !! more = Some false
             /\ take more rest = replicate more true
             /\ uart_cb_cfg u
                = replicate (done_ + more) (Some c0)
                  ++ replicate (length rest - more) None
    | Crashes _ => False
    end).
  { induction rest as [|ok rest IH]; intros done_ log.
    - simpl. by rw app_nil_r Nat.add_0_r.
    - cbn [luaopen_uart_from lua_registry lua_invoked uart_cb_cfg].
      assert (Hput : forall v : option serial_input_cfg,
        <[done_ := v]>
          (replicate done_ (Some c0)
           ++ replicate (length (ok :: rest)) None)
        = replicate done_ (Some c0)
          ++ v :: replicate (length rest) None).
      { intros v. rw insert_app_r_alt; [by rw length_replicate|].
        by rw length_replicate Nat.sub_diag. }
      rw Hput. destruct ok.
      + rw Hnew.
        replace (replicate done_ (Some c0)
                 ++ Some c0 :: replicate (length rest) None)
          with (replicate (S done_) (Some c0)
                ++ replicate (length rest) None)
          by by rw replicate_S_end -app_assoc.
        specialize (IH (S done_) log).
        destruct (luaopen_uart_from _ _ _) as [u|msg u|flt]; [| |done].
        * destruct IH as (Hall & Hreg & Hlog & Hcfg).
          split; [by constructor|]. split; [done|]. split; [done|].
          rw Hcfg. f_equal. simpl. lia.
        * destruct IH as (Hmsg & more & Hmore & Htake & Hcfg).
          split; [done|]. exists (S more). split; [done|].
          split; [by rw /= Htake|].
          rw Hcfg.
          by replace (done_ + S more)%nat with (S done_ + more)%nat by lia.
      + change (serial_input_new false) with (@None serial_input_cfg).
        cbn [uart_cb_cfg].
        split; [done|]. exists 0%nat. split; [done|]. split; [done|].
        by rw Nat.add_0_r. }
  specialize (Hloop callocs 0%nat []). simpl in Hloop.
  destruct (luaopen_uart_from _ _ _) as [u|msg u|flt]; [| |done].
  - destruct Hloop as (Hall & Hreg & Hlog & Hcfg).
    split; [done|]. split; [done|].
    intros id buf.
    assert (Hobj : obj (uart_stream u id) = None
                   \/ obj (uart_stream u id) = Some c0).
    { simpl. rw Hcfg.
      destruct (replicate (length callocs) (Some c0) !! id)
        as [cfg|] eqn:Hid; [|by left].
      right. apply lookup_replicate in Hid as [-> _]. done. }
    injection Hnew as Hc0.
    split.
    + unfold serial_input_has_data_cb.
      destruct Hobj as [-> | ->]; [done|]. by rw -Hc0.
    + unfold uart_feed_data.
      destruct (NUM_UART u <=? Z.of_nat id) eqn:Hid; [done|].
      assert (Hfeed : serial_input_feed_data (uart_stream u id) buf
                      = Returns (uart_stream u id)).
      { unfold serial_input_feed_data.
        destruct Hobj as [-> | ->]; [done|]. rw -Hc0. by destruct buf. }
      rw Hfeed. f_equal. unfold uart_stream_done. simpl.
      destruct u as [r l cfgs]. simpl in *. f_equal.
      apply list_eq. intros j.
      destruct (decide (j = id)) as [->|Hj];
        [|apply list_lookup_insert_ne; by intros ->].
      unfold NUM_UART in Hid. simpl in Hid.
      rw list_lookup_insert_eq; [lia|].
      destruct (cfgs !! id) as [cfg|] eqn:Hcfgs; [done|].
      apply lookup_ge_None in Hcfgs. lia.
  - destruct Hloop as (Hmsg & more & Hmore & Htake & Hcfg).
    split; [done|]. by exists more.
Qed.

End UartProperties.
